(** * pr2_calibration_estimation: the residual and Jacobian engine of opt_runner.py

    A shallow embedding of [ErrorCalc] and [opt_runner] from
    pr2_calibration_estimation/src/pr2_calibration_estimation/opt_runner.py.
    numpy arrays of doubles are lists of binary64 floats, a Python exception is
    a value of [exn], and the methods that overwrite the shared parameter model
    run in a state-and-error monad over the state of the collaborating
    objects (RobotParams and the sensors). *)

From Stdlib Require Import Floats.
From stdpp Require Import gmap strings list.

(** ** Python exceptions and results *)

Inductive exn : Type :=
  | ValueError
  | IndexError
  | KeyError
  | TypeError
  | AssertionError
  | NameError (name : string).

Inductive result (A : Type) : Type :=
  | Ok (a : A)
  | Raise (e : exn).
Arguments Ok {A} a.
Arguments Raise {A} e.

#[global] Instance result_ret : MRet result := λ A a, Ok a.
#[global] Instance result_bind : MBind result := λ A B k m,
  match m with
  | Ok a => k a
  | Raise e => Raise e
  end.

(** [assert cond] *)
Definition py_assert (P : Prop) `{!Decision P} : result unit :=
  if decide P then Ok tt else Raise AssertionError.

(** [l[i]] for a non-negative index. *)
Definition py_index {A} (l : list A) (i : nat) : result A :=
  match l !! i with
  | Some x => Ok x
  | None => Raise IndexError
  end.

(** [sum(mask)] for a list of 0/1 flags. *)
Definition py_sum_flags (mask : list bool) : nat :=
  foldr (λ b n, Nat.b2n b + n) 0 mask.

(** [sum(ns)] for a list of non-negative ints. *)
Definition py_sum (ns : list nat) : nat := foldr Nat.add 0 ns.

(** ** numpy, as far as opt_runner.py uses it *)

Abbreviation vec := (list float).

(** A two-dimensional array: its rows, and the number of columns (which an
    array with no row still has). *)
Record mat : Type := Mat { mrows : list vec; mcols : nat }.

Definition shape (m : mat) : nat * nat := (length (mrows m), mcols m).

Definition mget (m : mat) (r c : nat) : option float :=
  mrows m !! r ≫= λ row, row !! c.

(** [numpy.zeros(n)] and [numpy.zeros([r, c])] *)
Definition np_zeros (n : nat) : vec := replicate n 0%float.
Definition np_zeros2 (r c : nat) : mat := Mat (replicate r (np_zeros c)) c.

(** [m.transpose()] *)
Definition np_transpose (m : mat) : mat :=
  Mat ((λ c, (λ row, default 0%float (row !! c)) <$> mrows m) <$> seq 0 (mcols m))
      (length (mrows m)).

(** [numpy.where(mask)[0]]: the indices of the true entries, ascending. *)
Fixpoint where_from (k : nat) (mask : list bool) : list nat :=
  match mask with
  | [] => []
  | b :: mask' =>
      if b then k :: where_from (S k) mask' else where_from (S k) mask'
  end.

Definition np_where (mask : list bool) : list nat := where_from 0 mask.

(** [numpy.cumsum(ns)] *)
Fixpoint cumsum_from (acc : nat) (ns : list nat) : list nat :=
  match ns with
  | [] => []
  | n :: ns' => (acc + n) :: cumsum_from (acc + n) ns'
  end.

Definition np_cumsum (ns : list nat) : list nat := cumsum_from 0 ns.

(** [[0] + ends[:-1]] *)
Definition starts_of (ends : list nat) : list nat :=
  0 :: take (length ends - 1) ends.

(** [a[idx]] for an index array [idx]: IndexError when an index is out of
    bounds. *)
Fixpoint np_take {A} (a : list A) (idx : list nat) : result (list A) :=
  match idx with
  | [] => Ok []
  | i :: idx' =>
      match a !! i with
      | Some x => xs ← np_take a idx'; Ok (x :: xs)
      | None => Raise IndexError
      end
  end.

(** Broadcasting a one-dimensional value to [n] entries: the value has [n]
    entries, or a single one that is repeated. *)
Definition broadcast_1d {A} (n : nat) (v : list A) : result (list A) :=
  if decide (length v = n) then Ok v
  else match v with
       | [x] => Ok (replicate n x)
       | _ => Raise ValueError
       end.

(** Writing [vals] at the positions [idx], pairwise. *)
Definition scatter {A} (a : list A) (idx : list nat) (vals : list A) : list A :=
  foldl (λ acc p, <[p.1 := p.2]> acc) a (zip idx vals).

(** [a[idx, 0] = v] on an N-by-1 array [a]: the value is broadcast to the
    index first, then every index is checked against the bounds. *)
Definition np_put (a : vec) (idx : list nat) (v : vec) : result vec :=
  vals ← broadcast_1d (length idx) v;
  if decide (Forall (λ i, i < length a) idx) then Ok (scatter a idx vals)
  else Raise IndexError.

(** [a[i] = x] on a one-dimensional array. *)
Definition np_setitem (a : vec) (i : nat) (x : float) : result vec :=
  if decide (i < length a) then Ok (<[i := x]> a) else Raise IndexError.

(** [m[i] = v] on a two-dimensional array: row [i] is overwritten by [v],
    broadcast to the row's length. *)
Definition np_set_row (m : mat) (i : nat) (v : vec) : result mat :=
  if decide (i < length (mrows m)) then
    row ← broadcast_1d (mcols m) v;
    Ok (Mat (<[i := row]> (mrows m)) (mcols m))
  else Raise IndexError.

(** [a + b] and [a - b] on one-dimensional arrays, with numpy's broadcasting of
    a one-entry operand. *)
Definition np_binop (op : float → float → float) (a b : vec) : result vec :=
  if decide (length a = length b) then Ok (zip_with op a b)
  else match a, b with
       | [x], _ => Ok (op x <$> b)
       | _, [y] => Ok ((λ x, op x y) <$> a)
       | _, _ => Raise ValueError
       end.

Definition np_add : vec → vec → result vec := np_binop PrimFloat.add.
Definition np_sub : vec → vec → result vec := np_binop PrimFloat.sub.

(** [a / s] for a scalar [s] *)
Definition np_div_scalar (a : vec) (s : float) : vec :=
  (λ x, PrimFloat.div x s) <$> a.

(** [numpy.reshape(v, [-1, 6])]: the rows of a K-by-6 array. *)
Fixpoint rows_of (k : nat) (v : vec) : list vec :=
  match k with
  | 0 => []
  | S k' => take 6 v :: rows_of k' (drop 6 v)
  end.

Definition np_reshape_6 (v : vec) : result (list vec) :=
  if decide (length v `mod` 6 = 0) then Ok (rows_of (length v `div` 6) v)
  else Raise ValueError.

(** [numpy.concatenate(arrays)] of one-dimensional arrays; numpy refuses an
    empty sequence. *)
Definition np_concatenate (arrays : list vec) : result vec :=
  match arrays with
  | [] => Raise ValueError
  | _ => Ok (concat arrays)
  end.

(** *** Views

    A basic slice of an array is a view: a window on the rows and columns of
    the array it was sliced from, and writing through it writes the array. *)
Record view : Type := View {
  v_row : nat;
  v_nrows : nat;
  v_col : nat;
  v_ncols : nat;
}.

Definition whole (m : mat) : view := View 0 (length (mrows m)) 0 (mcols m).

(** The start and the length of [a:b] on an axis of [n] entries ([a] and [b] not
    negative): both ends are clipped to [n]. *)
Definition py_slice (n a b : nat) : nat * nat :=
  (a `min` n, b `min` n - a `min` n).

(** [v[r0:r1, c0:c1]] *)
Definition view_slice (v : view) (r0 r1 c0 c1 : nat) : view :=
  let rs := py_slice (v_nrows v) r0 r1 in
  let cs := py_slice (v_ncols v) c0 c1 in
  View (v_row v + rs.1) rs.2 (v_col v + cs.1) cs.2.

(** [v[r0:r1, :]] *)
Definition view_rows (v : view) (r0 r1 : nat) : view :=
  let rs := py_slice (v_nrows v) r0 r1 in
  View (v_row v + rs.1) rs.2 (v_col v) (v_ncols v).

Definition in_view (v : view) (r c : nat) : bool :=
  bool_decide (v_row v ≤ r < v_row v + v_nrows v ∧
               v_col v ≤ c < v_col v + v_ncols v).

(** Index into a broadcast axis: an axis of the destination's length is read
    as it is, an axis of one entry is repeated. *)
Definition bc_index (n_src n_dst i : nat) : nat :=
  if decide (n_src = n_dst) then i else 0.

Definition bc_get (x : mat) (v : view) (r c : nat) : float :=
  default 0%float
    (mget x (bc_index (length (mrows x)) (v_nrows v) (r - v_row v))
            (bc_index (mcols x) (v_ncols v) (c - v_col v))).

(** [v[:, :] = x] for a view [v] of [m]: [x] is broadcast to the shape of the
    view; the entries of [m] outside the view keep their value. *)
Definition view_assign (m : mat) (v : view) (x : mat) : result mat :=
  if decide ((length (mrows x) = v_nrows v ∨ length (mrows x) = 1) ∧
             (mcols x = v_ncols v ∨ mcols x = 1))
  then Ok (Mat (imap (λ r row,
                  imap (λ c old, if in_view v r c then bc_get x v r c else old) row)
                (mrows m))
           (mcols m))
  else Raise ValueError.

(** ** The collaborators

    RobotParams, SingleTransform, the sensors, the checkerboard models and
    scipy's solver are imported by opt_runner.py; they are taken as
    parameters.  [World] is the state of the mutable objects the engine
    shares with its caller: the RobotParams instance and the configuration
    each sensor caches from it.  calc_free may raise; build_sparsity_dict
    builds a dictionary of its own at each call, so the keys
    single_sensor_params_jacobian adds to it are seen by nobody else. *)
Class Collaborators : Type := {
  World : Type;
  Sensor : Type;
  Points : Type;
  Transform : Type;
  Checkerboard : Type;
  PrimSpec : Type;
  ParamsDict : Type;
  Config : Type;
  (** RobotParams *)
  rp_configure : ParamsDict → World → World;
  rp_deflate : World → vec;
  rp_inflate : vec → World → World;
  rp_calc_free : World → gmap string (gmap string PrimSpec) → result (list bool);
  rp_checkerboards : World → gmap string Checkerboard;
  rp_params_to_config : World → vec → Config;
  cb_generate_points : Checkerboard → Points;
  (** [SingleTransform(p).transform] and its product with a point set *)
  SingleTransform_transform : vec → Transform;
  transform_mul : Transform → Points → Points;
  (** the sensors *)
  sensor_build_sparsity_dict : Sensor → World → gmap string (gmap string PrimSpec);
  sensor_update_config : Sensor → World → World;
  sensor_compute_residual : Sensor → World → Points → vec;
  sensor_get_residual_length : Sensor → World → nat;
  (** [scipy.optimize.leastsq(func, x0, Dfun=jac, full_output=1)[0]],
      [numpy.mean] and the console *)
  leastsq : (vec → World → result vec * World) → vec →
            (vec → World → result mat * World) → World → result vec * World;
  np_mean : vec → float;
  py_print_rms : float → World → World;
}.

(** Modelled from the spec: the class MultiSensor (multi_sensor.py is not among
    the sources).  An observation group is an ordered list of sensors sharing
    one target; [sensors] and [checkerboard] are the two attributes
    opt_runner.py reads, and the three methods it calls are defined below from
    the spec's words. *)
Record MultiSensor (S : Type) : Type := {
  sensors : list S;
  checkerboard : string;
}.
Arguments sensors {S} _.
Arguments checkerboard {S} _.

(** The attributes [ErrorCalc.__init__] stores, apart from the reference to the
    shared RobotParams object, which is part of the world. *)
Record ErrorCalc (S : Type) : Type := {
  _expanded_params : vec;
  _free_list : list bool;
  _multisensors : list (MultiSensor S);
}.
Arguments _expanded_params {S} _.
Arguments _free_list {S} _.
Arguments _multisensors {S} _.

(** [ErrorCalc.calculate_full_param_vec]: the copy of the cached vector is the
    value [np_put] returns; the cached vector itself is not written. *)
Definition calculate_full_param_vec {S} (self : ErrorCalc S) (opt_param_vec : vec)
  : result vec :=
  let full_param_vec := _expanded_params self in
  np_put full_param_vec (np_where (_free_list self)) opt_param_vec.

(** [ErrorCalc.split_all] *)
Definition split_all {S} (self : ErrorCalc S) (opt_all_vec : vec)
  : result (vec * list vec) :=
  let opt_param_len := py_sum_flags (_free_list self) in
  let opt_param_vec := take opt_param_len opt_all_vec in
  let full_pose_vec := drop opt_param_len opt_all_vec in
  full_pose_arr ← np_reshape_6 full_pose_vec;
  Ok (opt_param_vec, full_pose_arr).

(** The step of the forward differences, [epsilon = 1e-6]. *)
#[warnings="-inexact-float"]
Definition epsilon : float := 1e-6%float.

(** [required_keys] of single_sensor_params_jacobian and its loop: a key the
    dictionary lacks is bound to an empty dictionary. *)
Definition required_keys : list string :=
  ["dh_chains"; "tilting_lasers"; "transforms"; "rectified_cams"; "checkerboards"].

Definition fill_required_keys {V} (sparsity_dict : gmap string (gmap string V))
  : gmap string (gmap string V) :=
  foldl (λ d cur_key,
           match d !! cur_key with
           | Some _ => d
           | None => <[cur_key := ∅]> d
           end)
        sparsity_dict required_keys.

(** The names bound at the top level of opt_runner.py (its imports, its class
    and its function).  A name a function uses and never assigns is looked up
    here when the line runs, then among the builtins, of which neither
    [reshape] nor [full_param_vec] is one. *)
Inductive pyobj : Type :=
  | Imported (path : string)
  | TopLevel (name : string).

Definition module_globals : gmap string pyobj :=
  list_to_map
    [("roslib", Imported "roslib");
     ("RobotParams", Imported "pr2_calibration_estimation.robot_params.RobotParams");
     ("SingleTransform", Imported "pr2_calibration_estimation.single_transform.SingleTransform");
     ("numpy", Imported "numpy");
     ("array", Imported "numpy.array");
     ("matrix", Imported "numpy.matrix");
     ("zeros", Imported "numpy.zeros");
     ("cumsum", Imported "numpy.cumsum");
     ("concatenate", Imported "numpy.concatenate");
     ("scipy", Imported "scipy");
     ("sys", Imported "sys");
     ("ErrorCalc", TopLevel "ErrorCalc");
     ("opt_runner", TopLevel "opt_runner")].

Definition py_global (name : string) : result pyobj :=
  match module_globals !! name with
  | Some o => Ok o
  | None => Raise (NameError name)
  end.

(** Calling what the name [reshape] is bound to, as [reshape(a, [-1])] and
    [reshape(a, [-1, 6])]. *)
Definition call_reshape_flat (f : pyobj) (a : list vec) : result vec :=
  match f with
  | Imported "numpy.reshape" => Ok (concat a)
  | _ => Raise TypeError
  end.

Definition call_reshape_6 (f : pyobj) (a : list vec) : result (list vec) :=
  match f with
  | Imported "numpy.reshape" => np_reshape_6 (concat a)
  | _ => Raise TypeError
  end.

(** Passing what a global name is bound to where an array is expected. *)
Definition as_array (o : pyobj) : result vec := Raise TypeError.

Section engine.
Context `{C : Collaborators}.

(** *** The state-and-error monad of the methods *)

Definition M (A : Type) : Type := World → result A * World.

#[global] Instance M_ret : MRet M := λ A a w, (Ok a, w).
#[global] Instance M_bind : MBind M := λ A B k m w,
  match m w with
  | (Ok a, w') => k a w'
  | (Raise e, w') => (Raise e, w')
  end.

Definition lift {A} (r : result A) : M A := λ w, (r, w).
Definition gets {A} (f : World → A) : M A := λ w, (Ok (f w), w).
Definition modify (f : World → World) : M unit := λ w, (Ok tt, f w).

(** [for x in xs: body(x)] *)
Fixpoint for_each {A} (body : A → M unit) (xs : list A) : M unit :=
  match xs with
  | [] => mret tt
  | x :: xs' => body x;; for_each body xs'
  end.

(** [[f(x) for x in xs]], and a loop that appends [f(x)] to a list *)
Fixpoint map_M {A B} (f : A → M B) (xs : list A) : M (list B) :=
  match xs with
  | [] => mret []
  | x :: xs' => y ← f x; ys ← map_M f xs'; mret (y :: ys)
  end.

(** A loop that updates local variables [s] *)
Fixpoint fold_M {A St} (body : St → A → M St) (s : St) (xs : list A) : M St :=
  match xs with
  | [] => mret s
  | x :: xs' => s' ← body s x; fold_M body s' xs'
  end.

(** *** MultiSensor's methods *)

(** Modelled from the spec: MultiSensor.update_config refreshes each sensor of
    the group from the model, in order. *)
Definition ms_update_config (ms : MultiSensor Sensor) : M unit :=
  for_each (λ s, modify (sensor_update_config s)) (sensors ms).

(** Modelled from the spec: MultiSensor.compute_residual asks each sensor of
    the group for its residual and concatenates them in sensor order. *)
Definition ms_compute_residual (ms : MultiSensor Sensor) (target_pts : Points)
  : M vec :=
  gets (λ w, concat ((λ s, sensor_compute_residual s w target_pts) <$> sensors ms)).

(** Modelled from the spec: MultiSensor.get_residual_length is the sum of the
    sensors' residual lengths. *)
Definition ms_get_residual_length (ms : MultiSensor Sensor) : M nat :=
  gets (λ w, py_sum ((λ s, sensor_get_residual_length s w) <$> sensors ms)).

(** [self._robot_params.checkerboards[target_id].generate_points()] *)
Definition generate_points (target_id : string) : M Points :=
  λ w, match rp_checkerboards w !! target_id with
       | Some cb => (Ok (cb_generate_points cb), w)
       | None => (Raise KeyError, w)
       end.

(** [self._robot_params.calc_free(d)]: it may raise, as it does (a KeyError)
    on a dictionary that lacks a category it reads. *)
Definition calc_free (d : gmap string (gmap string PrimSpec)) : M (list bool) :=
  λ w, (rp_calc_free w d, w).

(** *** ErrorCalc *)

(** [ErrorCalc.__init__] *)
Definition ErrorCalc_init (free_dict : gmap string (gmap string PrimSpec))
    (multisensors : list (MultiSensor Sensor)) : M (ErrorCalc Sensor) :=
  expanded ← gets rp_deflate;
  free_list ← calc_free free_dict;
  mret {| _expanded_params := expanded;
          _free_list := free_list;
          _multisensors := multisensors |}.

(** [ErrorCalc.calculate_error] *)
Definition calculate_error (self : ErrorCalc Sensor) (opt_all_vec : vec) : M vec :=
  '(opt_param_vec, full_pose_arr) ← lift (split_all self opt_all_vec);
  full_param_vec ← lift (calculate_full_param_vec self opt_param_vec);
  modify (rp_inflate full_param_vec);;
  for_each ms_update_config (_multisensors self);;
  r_list ← map_M (λ '(multisensor, cb_pose_vec),
                    let T := SingleTransform_transform cb_pose_vec in
                    pts ← generate_points (checkerboard multisensor);
                    ms_compute_residual multisensor (transform_mul T pts))
                 (zip (_multisensors self) full_pose_arr);
  r_vec ← lift (np_concatenate r_list);
  mret r_vec.

(** One turn of the loop of single_sensor_params_jacobian (lines 168-177): the
    locals it updates are [Jt] and [dx]. *)
Definition params_fd_step (self : ErrorCalc Sensor) (x0 f0 : vec)
    (target_pose_T : Transform) (target_id : string) (sensor : Sensor)
    (st : mat * vec) (i : nat) : M (mat * vec) :=
  let '(Jt, dx) := st in
  dx ← lift (np_setitem dx i epsilon);
  opt_test_param_vec ← lift (np_add x0 dx);
  full_test_param_vec ← lift (calculate_full_param_vec self opt_test_param_vec);
  modify (rp_inflate full_test_param_vec);;
  modify (sensor_update_config sensor);;
  pts ← generate_points target_id;
  let target_points := transform_mul target_pose_T pts in
  r ← gets (λ w, sensor_compute_residual sensor w target_points);
  d ← lift (np_sub r f0);
  Jt ← lift (np_set_row Jt i (np_div_scalar d epsilon));
  dx ← lift (np_setitem dx i 0%float);
  mret (Jt, dx).

(** [ErrorCalc.single_sensor_params_jacobian] *)
Definition single_sensor_params_jacobian (self : ErrorCalc Sensor)
    (opt_param_vec : vec) (target_pose_T : Transform) (target_id : string)
    (sensor : Sensor) : M mat :=
  sparsity_dict ← gets (sensor_build_sparsity_dict sensor);
  let sparsity_dict := fill_required_keys sparsity_dict in
  full_sparsity_list ← calc_free sparsity_dict;
  opt_sparsity_vec ← lift (np_take full_sparsity_list (np_where (_free_list self)));
  full_param_vec ← lift (calculate_full_param_vec self opt_param_vec);
  modify (rp_inflate full_param_vec);;
  modify (sensor_update_config sensor);;
  let x0 := opt_param_vec in
  pts ← generate_points target_id;
  let target_points := transform_mul target_pose_T pts in
  f0 ← gets (λ w, sensor_compute_residual sensor w target_points);
  let Jt := np_zeros2 (length x0) (length f0) in
  let dx := np_zeros (length x0) in
  '(Jt, dx) ← fold_M (params_fd_step self x0 f0 target_pose_T target_id sensor)
                     (Jt, dx) (np_where opt_sparsity_vec);
  mret (np_transpose Jt).

(** One turn of the loop of multisensor_pose_jacobian (lines 195-201). *)
Definition pose_fd_step (x0 f0 : vec) (local_cb_points : Points)
    (multisensor : MultiSensor Sensor) (st : mat * vec) (i : nat)
  : M (mat * vec) :=
  let '(Jt, dx) := st in
  dx ← lift (np_setitem dx i epsilon);
  test_vec ← lift (np_add x0 dx);
  fTest ← ms_compute_residual multisensor
            (transform_mul (SingleTransform_transform test_vec) local_cb_points);
  d ← lift (np_sub fTest f0);
  Jt ← lift (np_set_row Jt i (np_div_scalar d epsilon));
  dx ← lift (np_setitem dx i 0%float);
  mret (Jt, dx).

(** [ErrorCalc.multisensor_pose_jacobian] *)
Definition multisensor_pose_jacobian (self : ErrorCalc Sensor)
    (opt_param_vec pose_param_vec : vec) (multisensor : MultiSensor Sensor)
  : M mat :=
  full_param_vec ← lift (calculate_full_param_vec self opt_param_vec);
  modify (rp_inflate full_param_vec);;
  ms_update_config multisensor;;
  local_cb_points ← generate_points (checkerboard multisensor);
  let x0 := pose_param_vec in
  f0 ← ms_compute_residual multisensor
         (transform_mul (SingleTransform_transform x0) local_cb_points);
  let Jt := np_zeros2 (length x0) (length f0) in
  let dx := np_zeros (length x0) in
  '(Jt, dx) ← fold_M (pose_fd_step x0 f0 local_cb_points multisensor)
                     (Jt, dx) (seq 0 (length x0));
  mret (np_transpose Jt).

(** The body of the inner loop of calculate_jacobian (lines 119-121): the
    parameter block of sensor [k] of the group. *)
Definition jacobian_sensor_step (self : ErrorCalc Sensor) (opt_param_vec : vec)
    (target_pose_T : Transform) (target_id : string) (J_ms_params : view)
    (s_start_row s_end_row : list nat) (J : mat) (ks : nat * Sensor) : M mat :=
  let '(k, s) := ks in
  r0 ← lift (py_index s_start_row k);
  r1 ← lift (py_index s_end_row k);
  let J_s_params := view_rows J_ms_params r0 r1 in
  x ← single_sensor_params_jacobian self opt_param_vec target_pose_T target_id s;
  lift (view_assign J J_s_params x).

(** The body of the outer loop of calculate_jacobian (lines 109-127). *)
Definition jacobian_group_step (self : ErrorCalc Sensor)
    (opt_param_vec : vec) (full_pose_arr : list vec)
    (ms_start_row ms_end_row ms_start_col ms_end_col : list nat)
    (J : mat) (ims : nat * MultiSensor Sensor) : M mat :=
  let '(i, ms) := ims in
  r0 ← lift (py_index ms_start_row i);
  r1 ← lift (py_index ms_end_row i);
  let J_ms_params := view_slice (whole J) r0 r1 0 (length opt_param_vec) in
  s_r_len ← map_M (λ s, gets (sensor_get_residual_length s)) (sensors ms);
  let s_end_row := np_cumsum s_r_len in
  let s_start_row := starts_of s_end_row in
  pose ← lift (py_index full_pose_arr i);
  let target_pose_T := SingleTransform_transform pose in
  J ← fold_M (jacobian_sensor_step self opt_param_vec target_pose_T
                (checkerboard ms) J_ms_params s_start_row s_end_row)
             J (zip (seq 0 (length (sensors ms))) (sensors ms));
  c0 ← lift (py_index ms_start_col i);
  c1 ← lift (py_index ms_end_col i);
  let J_ms_pose := view_slice (whole J) r0 r1 c0 c1 in
  lift (py_assert (v_ncols J_ms_pose = 6));;
  pose ← lift (py_index full_pose_arr i);
  x ← multisensor_pose_jacobian self opt_param_vec pose ms;
  lift (view_assign J J_ms_pose x).

(** [ErrorCalc.calculate_jacobian] *)
Definition calculate_jacobian (self : ErrorCalc Sensor) (opt_all_vec : vec)
  : M mat :=
  '(opt_param_vec, full_pose_arr) ← lift (split_all self opt_all_vec);
  ms_r_len ← map_M ms_get_residual_length (_multisensors self);
  let J := np_zeros2 (py_sum ms_r_len) (length opt_all_vec) in
  let ms_end_row := np_cumsum ms_r_len in
  let ms_start_row := starts_of ms_end_row in
  let ms_end_col :=
    (λ x, x + length opt_param_vec)
      <$> np_cumsum (replicate (length (_multisensors self)) 6) in
  let ms_start_col := (λ x, x - 6) <$> ms_end_col in
  J ← fold_M (jacobian_group_step self opt_param_vec full_pose_arr
                ms_start_row ms_end_row ms_start_col ms_end_col)
             J (zip (seq 0 (length (_multisensors self))) (_multisensors self));
  mret J.

(** *** The driver *)

(** [opt_runner]; [pose_guess_arr] is a two-dimensional array. *)
Definition opt_runner (robot_params_dict : ParamsDict) (pose_guess_arr : mat)
    (free_dict : gmap string (gmap string PrimSpec))
    (multisensors : list (MultiSensor Sensor)) : M (Config * list vec) :=
  modify (rp_configure robot_params_dict);;
  error_calc ← ErrorCalc_init free_dict multisensors;
  expanded_param_vec ← gets rp_deflate;
  free_list ← calc_free free_dict;
  opt_param_vec ← lift (np_take expanded_param_vec (np_where free_list));
  lift (py_assert (mcols pose_guess_arr = 6));;
  lift (py_assert (length (mrows pose_guess_arr) = length multisensors));;
  reshape ← lift (py_global "reshape");
  opt_pose_vec ← lift (call_reshape_flat reshape (mrows pose_guess_arr));
  let opt_all := opt_param_vec ++ opt_pose_vec in
  x ← leastsq (calculate_error error_calc) opt_all (calculate_jacobian error_calc);
  '(opt_param_vec, pose_vec) ← lift (split_all error_calc x);
  expanded_param_vec ← lift (calculate_full_param_vec error_calc opt_param_vec);
  reshape ← lift (py_global "reshape");
  opt_pose_arr ← lift (call_reshape_6 reshape pose_vec);
  full_param_vec ← lift (py_global "full_param_vec" ≫= as_array);
  output_dict ← gets (λ w, rp_params_to_config w full_param_vec);
  final_error ← calculate_error error_calc x;
  let rms_error :=
    PrimFloat.sqrt (np_mean ((λ e, PrimFloat.mul e e) <$> final_error)) in
  modify (py_print_rms rms_error);;
  mret (output_dict, opt_pose_arr).

End engine.

(** ** A small concrete model

    Three parameters: [a] and [b] are transforms, [c] belongs to the
    checkerboards; calc_free refuses a dictionary that lacks one of the five
    categories.  The state of the model is its parameter vector; sensor [k]
    reads parameter [k], declares it alone in its sparsity dictionary, and
    returns two residuals; the one target [cb] has two coordinates, which a
    pose shifts.  The solver returns its initial guess. *)

Definition demo_names : list string := ["a"; "b"; "c"].

Definition demo_name (p : nat) : string := default "c" (demo_names !! p).

Definition demo_category (p : nat) : string :=
  if decide (p < 2) then "transforms" else "checkerboards".

Definition demo_calc_free {V} (d : gmap string (gmap string V)) : list bool :=
  (λ p, bool_decide (is_Some (d !! demo_category p ≫= λ c, c !! demo_name p)))
    <$> [0; 1; 2].

Definition demo_residual (s : nat) (w : vec) (pts : vec) : vec :=
  [ PrimFloat.add (default 0%float (w !! s)) (default 0%float (pts !! 0));
    PrimFloat.mul (default 0%float (w !! s)) (default 0%float (pts !! 1)) ].

Definition demo : Collaborators := {|
  World := vec;
  Sensor := nat;
  Points := vec;
  Transform := vec;
  Checkerboard := vec;
  PrimSpec := unit;
  ParamsDict := vec;
  Config := vec;
  rp_configure d w := d;
  rp_deflate w := w;
  rp_inflate v w := v;
  rp_calc_free w d :=
    if decide (Forall (λ key, is_Some (d !! key)) required_keys)
    then Ok (demo_calc_free d) else Raise KeyError;
  rp_checkerboards w := {[ "cb" := [1%float; 2%float] ]};
  rp_params_to_config w v := v;
  cb_generate_points cb := cb;
  SingleTransform_transform p := p;
  transform_mul T pts := zip_with PrimFloat.add T pts;
  sensor_build_sparsity_dict s w := {[ demo_category s := {[ demo_name s := () ]} ]};
  sensor_update_config s w := w;
  sensor_compute_residual := demo_residual;
  sensor_get_residual_length s w := 2;
  leastsq f x0 jac w := (Ok x0, w);
  np_mean v := 0%float;
  py_print_rms r w := w;
|}.

(** Parameters [a] and [c] are free. *)
Definition demo_free_dict : gmap string (gmap string unit) :=
  fill_required_keys
    (<["transforms" := {[ "a" := () ]}]> {[ "checkerboards" := {[ "c" := () ]} ]}).

Definition demo_ms (s : nat) : MultiSensor nat :=
  {| sensors := [s]; checkerboard := "cb" |}.

Definition demo_world : vec := [10; 20; 30]%float.

(** Two groups; parameters [a] and [c] are free. *)
Definition demo_calc : ErrorCalc nat :=
  {| _expanded_params := demo_world;
     _free_list := [true; false; true];
     _multisensors := [demo_ms 0; demo_ms 2] |}.

(** Two free parameters and two poses. *)
Definition demo_vec : vec := [11; 31; 0; 0; 0; 0; 0; 0; 1; 0; 0; 0; 0; 0]%float.

(** Two free parameters and a single pose. *)
Definition demo_short_vec : vec := [11; 31; 0; 0; 0; 0; 0; 0]%float.

(** Two free parameters and seven trailing entries. *)
Definition demo_ragged_vec : vec := [11; 31; 0; 0; 0; 0; 0; 0; 1]%float.

(** The engine with no observation group, and one whose only group names a
    target the model does not have. *)
Definition demo_no_group : ErrorCalc nat :=
  {| _expanded_params := demo_world;
     _free_list := [true; false; true];
     _multisensors := [] |}.

Definition demo_lost_target : ErrorCalc nat :=
  {| _expanded_params := demo_world;
     _free_list := [true; false; true];
     _multisensors := [{| sensors := [0]; checkerboard := "lost" |}] |}.

(** ** Vocabulary of the statements *)

(** The part of an optimization vector after the free parameters. *)
Definition pose_block {S} (self : ErrorCalc S) (v : vec) : vec :=
  drop (py_sum_flags (_free_list self)) v.

(** The layout the engine expects: the free parameters, then six entries per
    observation group. *)
Definition well_formed {S} (self : ErrorCalc S) (v : vec) : Prop :=
  length v = py_sum_flags (_free_list self) + 6 * length (_multisensors self).

(** A vector whose pose block is not a whole number of 6-vectors, or not one
    6-vector per observation group. *)
Definition malformed {S} (self : ErrorCalc S) (v : vec) : Prop :=
  length (pose_block self v) `mod` 6 ≠ 0 ∨
  length (pose_block self v) `div` 6 ≠ length (_multisensors self).

(** The call raises and leaves the world as it found it. *)
Definition raises_unchanged `{C : Collaborators} {A} (m : M A) (w : World) : Prop :=
  ∃ e, m w = (Raise e, w).

(** [[f(x) for x in xs]] for an [f] that may raise and writes nothing. *)
Fixpoint collect {A B} (f : A → result B) (xs : list A) : result (list B) :=
  match xs with
  | [] => Ok []
  | x :: xs' => y ← f x; ys ← collect f xs'; Ok (y :: ys)
  end.

Section vocabulary.
Context `{C : Collaborators}.
Implicit Types (self : ErrorCalc Sensor) (ms : MultiSensor Sensor) (w : World).

(** The world after each sensor of [ss] refreshed its configuration. *)
Definition refresh_sensors (ss : list Sensor) w : World :=
  foldl (λ w s, sensor_update_config s w) w ss.

(** The world after the model was inflated with [full] and every observation
    group refreshed, in group order. *)
Definition updated_world self (full : vec) w : World :=
  foldl (λ w ms, refresh_sensors (sensors ms) w) (rp_inflate full w)
        (_multisensors self).

(** The target of a group as its sensors see it under a pose. *)
Definition target_points ms (T : Transform) w : result Points :=
  match rp_checkerboards w !! checkerboard ms with
  | Some cb => Ok (transform_mul T (cb_generate_points cb))
  | None => Raise KeyError
  end.

(** The residuals of the sensors of a group, in sensor order. *)
Definition sensor_residuals ms w (pts : Points) : list vec :=
  (λ s, sensor_compute_residual s w pts) <$> sensors ms.

(** The declared residual length of a group and of all groups. *)
Definition group_length ms w : nat :=
  py_sum ((λ s, sensor_get_residual_length s w) <$> sensors ms).

Definition total_length self w : nat :=
  py_sum ((λ ms, group_length ms w) <$> _multisensors self).

(** What the engine relies on from the model and the sensors: the free mask
    is no longer than the parameter vector, the model knows the target of every
    group, and a sensor's residual has the length the sensor declares, whatever
    the state of the model. *)
Record contract self : Prop := {
  free_in_range : length (_free_list self) ≤ length (_expanded_params self);
  target_known : ∀ w ms, ms ∈ _multisensors self →
    is_Some (rp_checkerboards w !! checkerboard ms);
  residual_length : ∀ ms s, ms ∈ _multisensors self → s ∈ sensors ms →
    ∀ w w' pts, length (sensor_compute_residual s w pts)
                = sensor_get_residual_length s w';
}.

(** The model and the sensors hold no state of their own that outlives an
    update: once the model was inflated with a vector and the groups were
    refreshed, the targets and the sensors' residuals are those of that
    vector, whatever the world was before. *)
Definition rederived self : Prop :=
  ∀ full w1 w2 ms, ms ∈ _multisensors self →
    rp_checkerboards (updated_world self full w1) !! checkerboard ms
      = rp_checkerboards (updated_world self full w2) !! checkerboard ms ∧
    ∀ s pts, s ∈ sensors ms →
      sensor_compute_residual s (updated_world self full w1) pts
        = sensor_compute_residual s (updated_world self full w2) pts.

End vocabulary.

(** *** Runs that return *)

Section returns.
Context `{C : Collaborators}.

(** [wp m w Q]: run from [w], [m] returns a value and a world that satisfy
    [Q]; it does not raise. *)
Definition wp {A} (m : M A) (w : World) (Q : A → World → Prop) : Prop :=
  match m w with
  | (Ok a, w') => Q a w'
  | (Raise _, _) => False
  end.

End returns.

(** *** Forward differences, as formulas *)

(** [x0 + epsilon * e_i]: entry [i] of [x0] moved by [epsilon], the other
    entries with the zero entry of [dx] added. *)
Definition perturbed (x0 : vec) (i : nat) : vec :=
  zip_with PrimFloat.add x0 (<[i := epsilon]> (np_zeros (length x0))).

(** [(f - f0) / epsilon], entry by entry. *)
Definition fd_quotient (f f0 : vec) : vec :=
  np_div_scalar (zip_with PrimFloat.sub f f0) epsilon.

(** The transpose of [n] rows of [L] zeros with the rows at [idx] overwritten
    by [qs]. *)
Definition transposed_rows (n L : nat) (idx : list nat) (qs : list vec) : mat :=
  np_transpose (Mat (scatter (replicate n (np_zeros L)) idx qs) L).

Section kernels_vocabulary.
Context `{C : Collaborators}.
Implicit Types (self : ErrorCalc Sensor) (ms : MultiSensor Sensor) (w : World).

(** The full parameter vector of a free-parameter vector of the right length. *)
Definition expand self (opt : vec) : vec :=
  scatter (_expanded_params self) (np_where (_free_list self)) opt.

(** The residual of a group, as a function of its pose, with the model as it
    is in [w]. *)
Definition pose_residual ms w (x : vec) : vec :=
  match rp_checkerboards w !! checkerboard ms with
  | Some cb =>
      concat (sensor_residuals ms w
                (transform_mul (SingleTransform_transform x) (cb_generate_points cb)))
  | None => []
  end.

(** The residual of a sensor on a target under a fixed pose, with the model as
    it is in [w]. *)
Definition sensor_residual (s : Sensor) (T : Transform) (target_id : string) w : vec :=
  match rp_checkerboards w !! target_id with
  | Some cb => sensor_compute_residual s w (transform_mul T (cb_generate_points cb))
  | None => []
  end.

(** The world after the model was inflated with the expansion of [x] and the
    sensor refreshed. *)
Definition sensor_world self (s : Sensor) (x : vec) w : World :=
  sensor_update_config s (rp_inflate (expand self x) w).

(** The sensor's sparsity mask over the full parameter vector, and its
    restriction to the free parameters. *)
Definition full_sparsity (s : Sensor) w : list bool :=
  match rp_calc_free w (fill_required_keys (sensor_build_sparsity_dict s w)) with
  | Ok mask => mask
  | Raise _ => []
  end.

Definition opt_sparsity self (s : Sensor) w : list bool :=
  (λ i, default false (full_sparsity s w !! i)) <$> np_where (_free_list self).

(** The difference quotients of the flagged parameters, one per index of
    [idx], in the order the loop takes them; each is taken in the world the
    previous ones left behind. *)
Fixpoint params_quotients self (x0 f0 : vec) (T : Transform) (target_id : string)
    (s : Sensor) (idx : list nat) w : list vec * World :=
  match idx with
  | [] => ([], w)
  | i :: idx' =>
      let w1 := sensor_world self s (perturbed x0 i) w in
      let q := fd_quotient (sensor_residual s T target_id w1) f0 in
      let rest := params_quotients self x0 f0 T target_id s idx' w1 in
      (q :: rest.1, rest.2)
  end.

(** The worlds the parameter loop goes through, one per index of [idx]: the
    model is inflated with [x0] perturbed at that index alone, and the sensor
    refreshed, in the world the previous index left. *)
Fixpoint params_worlds self (x0 : vec) (s : Sensor) (idx : list nat) w : list World :=
  match idx with
  | [] => []
  | i :: idx' =>
      let w1 := sensor_world self s (perturbed x0 i) w in
      w1 :: params_worlds self x0 s idx' w1
  end.

(** calc_free accepts a dictionary that has the five categories, and its mask
    is aligned to the full parameter vector: it covers the free mask. *)
Definition masks_aligned self : Prop :=
  ∀ w d, (∀ key, key ∈ required_keys → is_Some (d !! key)) →
    ∃ mask, rp_calc_free w d = Ok mask ∧ length (_free_list self) ≤ length mask.

(** The residual block of one observation group under a pose, read from [w]. *)
Definition group_residual ms (pose : vec) w : result vec :=
  pts ← target_points ms (SingleTransform_transform pose) w;
  Ok (concat (sensor_residuals ms w pts)).

(** The residual of a group on the points [pts] under the pose [x]. *)
Definition posed ms w (pts : Points) (x : vec) : vec :=
  concat (sensor_residuals ms w (transform_mul (SingleTransform_transform x) pts)).

(** The matrix and the world single_sensor_params_jacobian leaves, as
    formulas: the rows of the transposed block at the flagged indices are the
    difference quotients, the other rows are the zeros they were allocated
    with. *)
Definition params_jacobian self (opt : vec) T target_id s w : mat * World :=
  let idx := np_where (opt_sparsity self s w) in
  let w1 := sensor_world self s opt w in
  let f0 := sensor_residual s T target_id w1 in
  let qs := params_quotients self opt f0 T target_id s idx w1 in
  (np_transpose
     (Mat (scatter (replicate (length opt) (np_zeros (length f0))) idx qs.1)
          (length f0)),
   qs.2).

End kernels_vocabulary.

(** *** The blocks of the Jacobian *)

Section jacobian_vocabulary.
Context `{C : Collaborators}.
Implicit Types (self : ErrorCalc Sensor) (ms : MultiSensor Sensor) (w : World).

(** The first row of observation group [k]: the declared lengths of the groups
    before it.  Group [k] owns the rows from [row_start k] up to, and not
    including, [row_start (k + 1)]. *)
Definition row_start self w (k : nat) : nat :=
  py_sum (take k ((λ ms, group_length ms w) <$> _multisensors self)).

(** The first row of sensor [j] inside its group's rows. *)
Definition sensor_start ms w (j : nat) : nat :=
  py_sum (take j ((λ s, sensor_get_residual_length s w) <$> sensors ms)).

(** Column [c] is one of the six pose columns of group [k]. *)
Definition pose_col self (k c : nat) : Prop :=
  py_sum_flags (_free_list self) + 6 * k ≤ c
  < py_sum_flags (_free_list self) + 6 * k + 6.

(** Row [r] is one of the rows of group [k], and one of those of sensor [j] of
    group [k]. *)
Definition group_row self w (k r : nat) : Prop :=
  row_start self w k ≤ r < row_start self w (S k).

Definition sensor_row self ms w (k j r : nat) : Prop :=
  row_start self w k + sensor_start ms w j ≤ r
  < row_start self w k + sensor_start ms w (S j).

(** Free parameter [c] is flagged by the sparsity mask of [s] in some state of
    the model. *)
Definition flagged self (s : Sensor) (c : nat) : Prop :=
  ∃ w, c ∈ np_where (opt_sparsity self s w).

(** Where the Jacobian may differ from zero: in the rows of a group, its own
    pose columns; in the rows of a sensor, the free-parameter columns its
    sparsity mask flags. *)
Definition allowed self w (r c : nat) : Prop :=
  ∃ k ms, _multisensors self !! k = Some ms ∧ group_row self w k r ∧
    (pose_col self k c ∨
     (c < py_sum_flags (_free_list self) ∧
      ∃ j s, sensors ms !! j = Some s ∧ sensor_row self ms w k j r ∧
             flagged self s c)).

(** The Jacobian's shape, and its entries: each is zero or stands where it is
    allowed to differ from zero. *)
Definition block_sparse self w (v : vec) (J : mat) : Prop :=
  shape J = (total_length self w, length v) ∧
  ∀ r c, r < total_length self w → c < length v →
    ∃ y, mget J r c = Some y ∧ (y = 0%float ∨ allowed self w r c).

End jacobian_vocabulary.

(** ** Facts about the numpy helpers *)

Section numpy_facts.
Context {A : Type}.
Implicit Types (a vals : list A) (idx : list nat) (mask : list bool).

Lemma elem_of_where_from mask k p :
  p ∈ where_from k mask ↔ k ≤ p ∧ mask !! (p - k) = Some true.
Proof.
  revert k. induction mask as [|b mask IH]; intros k; simpl.
  - rewrite elem_of_nil. split; [done|]. by intros [_ ?].
  - assert (Hstep : p ∈ where_from (S k) mask ↔
                    S k ≤ p ∧ (b :: mask) !! (p - k) = Some true).
    { rewrite IH. split; intros [Hle Hp]; split; try lia.
      - replace (p - k) with (S (p - S k)) by lia. done.
      - replace (p - k) with (S (p - S k)) in Hp by lia. done. }
    destruct b.
    + rewrite elem_of_cons, Hstep. split.
      * intros [->|[Hle Hp]]; [|split; [lia|done]].
        split; [lia|]. by rewrite Nat.sub_diag.
      * intros [Hle Hp]. destruct (decide (p = k)) as [|Hne]; [by left|].
        right. split; [lia|done].
    + rewrite Hstep. split; intros [Hle Hp]; [split; [lia|done]|].
      split; [|done]. destruct (decide (p = k)) as [->|]; [|lia].
      rewrite Nat.sub_diag in Hp. done.
Qed.

Lemma elem_of_np_where mask p : p ∈ np_where mask ↔ mask !! p = Some true.
Proof.
  unfold np_where. rewrite elem_of_where_from, Nat.sub_0_r.
  split; [by intros [_ ?]|]. split; [lia|done].
Qed.

Lemma where_from_lower mask k p : p ∈ where_from k mask → k ≤ p.
Proof. rewrite elem_of_where_from. tauto. Qed.

Lemma NoDup_where_from mask k : NoDup (where_from k mask).
Proof.
  revert k. induction mask as [|[] mask IH]; intros k; simpl.
  - constructor.
  - constructor; [|apply IH]. intros Hin%where_from_lower. lia.
  - apply IH.
Qed.

Lemma NoDup_np_where mask : NoDup (np_where mask).
Proof. apply NoDup_where_from. Qed.

Lemma length_where_from mask k :
  length (where_from k mask) = py_sum_flags mask.
Proof.
  revert k. induction mask as [|[] mask IH]; intros k; simpl; auto.
Qed.

Lemma length_np_where mask : length (np_where mask) = py_sum_flags mask.
Proof. apply length_where_from. Qed.

Lemma np_where_bound mask :
  Forall (λ i, i < length mask) (np_where mask).
Proof.
  apply Forall_forall. intros p Hp%elem_of_np_where.
  by apply lookup_lt_Some in Hp.
Qed.

Lemma length_scatter a idx vals : length (scatter a idx vals) = length a.
Proof.
  unfold scatter. revert a. generalize (zip idx vals) as ps.
  induction ps as [|p ps IH]; intros a; simpl; [done|].
  by rewrite IH, length_insert.
Qed.

Lemma scatter_lookup_notin a idx vals p :
  p ∉ idx → scatter a idx vals !! p = a !! p.
Proof.
  unfold scatter. revert a vals.
  induction idx as [|i idx IH]; intros a vals Hp; [done|].
  destruct vals as [|x vals]; [done|]. simpl.
  apply not_elem_of_cons in Hp as [Hne Hp].
  rewrite IH by done. by apply list_lookup_insert_ne.
Qed.

Lemma scatter_lookup_in a idx vals k p :
  NoDup idx → p < length a → idx !! k = Some p → k < length vals →
  scatter a idx vals !! p = vals !! k.
Proof.
  unfold scatter. revert a vals k.
  induction idx as [|i idx IH]; intros a vals k Hnd Hlt Hk Hv; [done|].
  destruct vals as [|x vals]; [simpl in Hv; lia|].
  apply NoDup_cons in Hnd as [Hi Hnd]. simpl.
  destruct k as [|k]; simpl in *.
  - injection Hk as ->.
    change (scatter (<[p:=x]> a) idx vals !! p = Some x).
    rewrite scatter_lookup_notin by done.
    by apply list_lookup_insert_eq.
  - apply IH; [done|by rewrite length_insert|done|lia].
Qed.

Lemma np_take_Ok a idx xs :
  np_take a idx = Ok xs ↔ Forall2 (λ i x, a !! i = Some x) idx xs.
Proof.
  revert xs. induction idx as [|i idx IH]; intros xs; simpl.
  - split; [intros [= <-]; constructor|by intros ->%Forall2_nil_inv_l].
  - destruct (a !! i) as [x|] eqn:Hi.
    + destruct (np_take a idx) as [ys|e] eqn:Hidx; simpl.
      * split.
        -- intros [= <-]. constructor; [done|]. by apply IH.
        -- intros (y & ys' & Hy & Hys & ->)%Forall2_cons_inv_l.
           apply IH in Hys. congruence.
      * split; [done|].
        intros (y & ys' & Hy & Hys & ->)%Forall2_cons_inv_l.
        apply IH in Hys. done.
    + split; [done|].
      intros (y & ys' & Hy & Hys & ->)%Forall2_cons_inv_l. congruence.
Qed.

Lemma broadcast_1d_exact n (v : list A) : length v = n → broadcast_1d n v = Ok v.
Proof. intros H. unfold broadcast_1d. by rewrite decide_True. Qed.
End numpy_facts.


(** ** Expansion of the free parameters: calculate_full_param_vec *)

Section full_param_vec.
Context {S : Type}.
Implicit Types (self : ErrorCalc S) (opt : vec).

Lemma calculate_full_param_vec_defined self opt :
  length opt = py_sum_flags (_free_list self) →
  length (_free_list self) ≤ length (_expanded_params self) →
  calculate_full_param_vec self opt =
    Ok (scatter (_expanded_params self) (np_where (_free_list self)) opt).
Proof.
  intros Hlen Hmask. unfold calculate_full_param_vec, np_put.
  rewrite broadcast_1d_exact by (by rewrite length_np_where). simpl.
  rewrite decide_True; [done|].
  eapply Forall_impl; [apply np_where_bound|]. simpl. lia.
Qed.

Lemma np_take_scatter (a : vec) mask opt :
  length opt = py_sum_flags mask → length mask ≤ length a →
  np_take (scatter a (np_where mask) opt) (np_where mask) = Ok opt.
Proof.
  intros Hlen Hmask. apply np_take_Ok.
  apply Forall2_same_length_lookup_2.
  { by rewrite length_np_where. }
  intros k p x Hp Hx.
  rewrite (scatter_lookup_in _ _ _ k); [done|apply NoDup_np_where| |done|].
  - assert (p ∈ np_where mask) as Hin%elem_of_np_where%lookup_lt_Some
      by (by eapply list_elem_of_lookup_2).
    lia.
  - by apply lookup_lt_Some in Hx.
Qed.

(** C1. For a cached baseline, a free mask no longer than it and a subset with
    as many entries as the mask has true ones, calculate_full_param_vec returns
    a vector of the baseline's length that agrees with the baseline at every
    position the mask does not flag and carries the subset, in order, at the
    flagged positions (reading it back along the mask gives the subset).  The
    function is a pure function of the engine's attributes: it returns the
    expanded copy and nothing else, so the cached baseline is what it was.
    Hence splitting any full vector along the mask and expanding the pieces
    gives that vector back at the free positions. *)
Theorem calculate_full_param_vec_spec self opt :
  length opt = py_sum_flags (_free_list self) →
  length (_free_list self) ≤ length (_expanded_params self) →
  ∃ full,
    calculate_full_param_vec self opt = Ok full ∧
    length full = length (_expanded_params self) ∧
    (∀ p, _free_list self !! p ≠ Some true →
          full !! p = _expanded_params self !! p) ∧
    np_take full (np_where (_free_list self)) = Ok opt ∧
    (∀ v p, np_take v (np_where (_free_list self)) = Ok opt →
            _free_list self !! p = Some true → full !! p = v !! p).
Proof.
  intros Hlen Hmask. eexists. split.
  { by apply calculate_full_param_vec_defined. }
  split; [apply length_scatter|]. split.
  { intros p Hp. apply scatter_lookup_notin. by rewrite elem_of_np_where. }
  split; [by apply np_take_scatter|].
  intros v p Hv Hp. apply np_take_Ok in Hv.
  apply elem_of_np_where, list_elem_of_lookup in Hp as [k Hk].
  destruct (Forall2_lookup_l _ _ _ _ _ Hv Hk) as (x & Hx & Hvp).
  rewrite Hvp, <- Hx.
  apply (scatter_lookup_in _ _ _ k); [apply NoDup_np_where| |done|].
  - apply lookup_lt_Some in Hvp.
    assert (p ∈ np_where (_free_list self)) as Hin%elem_of_np_where%lookup_lt_Some
      by (by eapply list_elem_of_lookup_2).
    lia.
  - by apply lookup_lt_Some in Hx.
Qed.

End full_param_vec.

(** ** Running the monad *)

Section monad_facts.
Context `{C : Collaborators}.

Lemma wp_ret {A} (a : A) w Q : Q a w → wp (mret a) w Q.
Proof. done. Qed.

Lemma wp_bind {A B} (m : M A) (k : A → M B) w Q :
  wp m w (λ a w', wp (k a) w' Q) → wp (m ≫= k) w Q.
Proof.
  unfold wp, mbind, M_bind. by destruct (m w) as [[a|e] w'].
Qed.

Lemma wp_lift {A} (r : result A) (a : A) w Q :
  r = Ok a → Q a w → wp (lift r) w Q.
Proof. by intros ->. Qed.

Lemma wp_gets {A} (f : World → A) w Q : Q (f w) w → wp (gets f) w Q.
Proof. done. Qed.

Lemma wp_modify (f : World → World) w Q : Q tt (f w) → wp (modify f) w Q.
Proof. done. Qed.

Lemma wp_mono {A} (m : M A) w (Q Q' : A → World → Prop) :
  wp m w Q → (∀ a w', Q a w' → Q' a w') → wp m w Q'.
Proof.
  unfold wp. destruct (m w) as [[a|e] w']; [|done]. intros HQ HQ'. by apply HQ'.
Qed.

Lemma wp_run {A} (m : M A) w Q :
  wp m w Q ↔ ∃ a w', m w = (Ok a, w') ∧ Q a w'.
Proof.
  unfold wp. destruct (m w) as [[a|e] w']; split.
  - intros HQ. by exists a, w'.
  - by intros (? & ? & [= <- <-] & HQ).
  - done.
  - by intros (? & ? & [=] & _).
Qed.

Lemma fold_M_cons {A St} (body : St → A → M St) s x (xs : list A) w :
  fold_M body s (x :: xs) w
  = match body s x w with
    | (Ok s', w') => fold_M body s' xs w'
    | (Raise e, w') => (Raise e, w')
    end.
Proof. done. Qed.

(** A loop keeps an invariant of the items already handled. *)
Lemma wp_fold_M {A St} (body : St → A → M St) (xs : list A)
    (I : list A → St → World → Prop) s w :
  I [] s w →
  (∀ pre x post s w, xs = pre ++ x :: post → I pre s w →
     wp (body s x) w (I (pre ++ [x]))) →
  wp (fold_M body s xs) w (I xs).
Proof.
  intros Hinit Hstep.
  assert (Hgen : ∀ post pre s w, xs = pre ++ post → I pre s w →
            wp (fold_M body s post) w (I xs)).
  { induction post as [|x post IH]; intros pre s' w' Hxs Hpre; simpl.
    - rewrite app_nil_r in Hxs. by subst.
    - apply wp_bind. eapply wp_mono; [by eapply Hstep|].
      intros s'' w'' Hs''. eapply IH; [|done]. by rewrite <- app_assoc. }
  by apply (Hgen xs []).
Qed.

End monad_facts.

Ltac wp_bind := apply wp_bind.
Ltac wp_gets := apply wp_bind, wp_gets.
Ltac wp_modify := apply wp_bind, wp_modify.
Ltac wp_lift H := apply wp_bind; eapply wp_lift; [exact H|].

(** ** Malformed optimization vectors *)

Section malformed_vectors.
Context `{C : Collaborators}.
Implicit Types (self : ErrorCalc Sensor) (v : vec) (w : World).

Lemma length_rows_of k (v : vec) : length (rows_of k v) = k.
Proof. revert v. induction k as [|k IH]; intros v; simpl; [done|]. by rewrite IH. Qed.

Lemma split_all_ragged self v :
  length (pose_block self v) `mod` 6 ≠ 0 → split_all self v = Raise ValueError.
Proof.
  intros Hmod. unfold split_all, np_reshape_6. fold (pose_block self v).
  by rewrite decide_False.
Qed.

(** C6, as far as it holds.  split_all looks at the length of the part of the
    vector after the free parameters and at nothing else: whatever the
    observation groups are, it raises ValueError (from the reshape) when that
    length is not a multiple of 6 and returns that many 6-vectors otherwise.
    When it raises, calculate_error and calculate_jacobian raise the same
    error and the world is the one they were called in: nothing was
    inflated. *)
Theorem ragged_pose_block_raises self v w :
  (∀ groups : list (MultiSensor Sensor),
     let self' := {| _expanded_params := _expanded_params self;
                     _free_list := _free_list self;
                     _multisensors := groups |} in
     (length (pose_block self v) `mod` 6 ≠ 0 →
        split_all self' v = Raise ValueError) ∧
     (length (pose_block self v) `mod` 6 = 0 →
        ∃ opt poses, split_all self' v = Ok (opt, poses) ∧
                     length poses = length (pose_block self v) `div` 6)) ∧
  (length (pose_block self v) `mod` 6 ≠ 0 →
     calculate_error self v w = (Raise ValueError, w) ∧
     calculate_jacobian self v w = (Raise ValueError, w)).
Proof.
  split.
  - intros groups self'. split.
    + intros Hmod. by apply split_all_ragged.
    + intros Hmod. unfold split_all, np_reshape_6. simpl.
      fold (pose_block self v). rewrite decide_True by done. simpl.
      eexists _, _. split; [done|]. apply length_rows_of.
  - intros Hmod%split_all_ragged.
    unfold calculate_error, calculate_jacobian, mbind, M_bind, lift.
    by rewrite Hmod.
Qed.

End malformed_vectors.

Lemma ragged_pose_block_raises_demo :
  length (pose_block demo_calc demo_ragged_vec) `mod` 6 ≠ 0 ∧
  calculate_error (C := demo) demo_calc demo_ragged_vec demo_world
    = (Raise ValueError, demo_world) ∧
  calculate_jacobian (C := demo) demo_calc demo_ragged_vec demo_world
    = (Raise ValueError, demo_world).
Proof.
  split; [vm_compute; lia|].
  apply (ragged_pose_block_raises (C := demo) demo_calc demo_ragged_vec demo_world).
  vm_compute. lia.
Defined.

(** C6 does not hold for a wrong number of pose blocks: one pose 6-vector for
    two observation groups is a malformed vector, yet calculate_error returns a
    residual (of the first group alone: the pairing of groups and poses stops
    at the shorter list), and calculate_jacobian raises only after the model
    was overwritten with the vector's parameters. *)
Lemma group_count_not_checked :
  malformed demo_calc demo_short_vec ∧
  calculate_error (C := demo) demo_calc demo_short_vec demo_world
    = (Ok [12; 22]%float, [11; 20; 31]%float) ∧
  calculate_jacobian (C := demo) demo_calc demo_short_vec demo_world
    = (Raise IndexError, [11; 20; 31]%float) ∧
  ¬ raises_unchanged (calculate_error (C := demo) demo_calc demo_short_vec)
      demo_world ∧
  ¬ raises_unchanged (calculate_jacobian (C := demo) demo_calc demo_short_vec)
      demo_world.
Proof.
  split; [right; vm_compute; lia|].
  split; [by vm_compute|]. split; [by vm_compute|].
  split; intros [e He]; vm_compute in He; congruence.
Qed.

(** ** The driver *)

Section driver.
Context `{C : Collaborators}.

Lemma reshape_unbound : py_global "reshape" = Raise (NameError "reshape").
Proof. reflexivity. Qed.

Lemma opt_runner_raises (d : ParamsDict) (pose_guess_arr : mat)
    (free_dict : gmap string (gmap string PrimSpec))
    (multisensors : list (MultiSensor Sensor)) (w : World) :
  ∃ e w', opt_runner d pose_guess_arr free_dict multisensors w = (Raise e, w').
Proof.
  unfold opt_runner, ErrorCalc_init, mbind, M_bind, lift, gets, modify, mret, M_ret,
    calc_free.
  destruct (rp_calc_free (rp_configure d w) free_dict) as [free_list|e];
    cbv beta iota; [|by eauto].
  repeat match goal with
         | |- ∃ e w', match ?r with Ok _ => _ | Raise _ => _ end = _ =>
             first [ rewrite reshape_unbound; by eauto
                   | destruct r; [|by eauto] ]
         end.
Qed.

End driver.

(** C7 fails on the code.  opt_runner never returns: on every input it raises,
    and on an input that passes its assertions (here two groups and a 2-by-6
    array of pose guesses) the exception is the NameError of [reshape], a name
    the module does not import, raised at line 227 before the solver is
    called.  No pair is returned and no RMS error is reported. *)
Theorem opt_runner_never_returns :
  opt_runner (C := demo) demo_world
      (Mat [[0; 0; 0; 0; 0; 0]; [1; 0; 0; 0; 0; 0]]%float 6) demo_free_dict
      [demo_ms 0; demo_ms 2] demo_world
    = (Raise (NameError "reshape"), demo_world) ∧
  ∀ (C : Collaborators) d pose_guess_arr free_dict multisensors w,
    ∃ e w', opt_runner d pose_guess_arr free_dict multisensors w = (Raise e, w').
Proof.
  split; [by vm_compute|]. intros. apply opt_runner_raises.
Qed.

(** ** The residual: calculate_error *)

Section residual.
Context `{C : Collaborators}.
Implicit Types (self : ErrorCalc Sensor) (ms : MultiSensor Sensor) (w : World).

Lemma for_each_modify {A} (f : A → World → World) (xs : list A) w :
  for_each (λ x, modify (f x)) xs w = (Ok tt, foldl (λ w x, f x w) w xs).
Proof.
  revert w. induction xs as [|x xs IH]; intros w; [done|].
  simpl. unfold mbind, M_bind, modify at 1. apply IH.
Qed.

Lemma ms_update_config_run ms w :
  ms_update_config ms w = (Ok tt, refresh_sensors (sensors ms) w).
Proof. apply for_each_modify. Qed.

Lemma for_each_update_config (mss : list (MultiSensor Sensor)) w :
  for_each ms_update_config mss w
  = (Ok tt, foldl (λ w ms, refresh_sensors (sensors ms) w) w mss).
Proof.
  revert w. induction mss as [|ms mss IH]; intros w; [done|].
  simpl. unfold mbind, M_bind. rewrite ms_update_config_run. apply IH.
Qed.

Lemma map_M_read {A B} (f : A → M B) (g : A → World → result B) xs w :
  (∀ x w, f x w = (g x w, w)) →
  map_M f xs w = (collect (λ x, g x w) xs, w).
Proof.
  intros Hf. induction xs as [|x xs IH]; [done|].
  simpl. unfold mbind at 1 2 3, M_bind, result_bind. rewrite Hf.
  destruct (g x w) as [y|e]; [|done]. rewrite IH.
  by destruct (collect _ xs).
Qed.

Lemma group_body_run ms (pose : vec) w :
  (pts ← generate_points (checkerboard ms);
   ms_compute_residual ms (transform_mul (SingleTransform_transform pose) pts)) w
  = (group_residual ms pose w, w).
Proof.
  unfold mbind, M_bind, generate_points, group_residual, target_points.
  by destruct (rp_checkerboards w !! checkerboard ms).
Qed.

(** calculate_error, with its loops run. *)
Lemma calculate_error_unfold self v w :
  calculate_error self v w =
    match split_all self v with
    | Raise e => (Raise e, w)
    | Ok (opt, poses) =>
        match calculate_full_param_vec self opt with
        | Raise e => (Raise e, w)
        | Ok full =>
            let w' := updated_world self full w in
            (collect (λ p, group_residual p.1 p.2 w') (zip (_multisensors self) poses)
               ≫= np_concatenate, w')
        end
    end.
Proof.
  unfold calculate_error, mbind at 1 2, M_bind, lift.
  destruct (split_all self v) as [[opt poses]|e]; [|done].
  unfold mbind at 1 2, M_bind.
  destruct (calculate_full_param_vec self opt) as [full|e]; [|done].
  unfold mbind at 1 2 3 4, M_bind, modify.
  rewrite for_each_update_config. fold (updated_world self full w).
  rewrite (map_M_read _ (λ p w, group_residual p.1 p.2 w)); last first.
  { intros [ms pose] w0. apply group_body_run. }
  simpl. destruct (collect _ _) as [rs|e]; [|done]. simpl.
  by destruct (np_concatenate rs).
Qed.

Lemma collect_ext {A B} (f g : A → result B) xs :
  (∀ x, x ∈ xs → f x = g x) → collect f xs = collect g xs.
Proof.
  induction xs as [|x xs IH]; intros Hfg; [done|]. simpl.
  rewrite Hfg by apply list_elem_of_here.
  rewrite IH; [done|]. intros y Hy. apply Hfg. by apply list_elem_of_further.
Qed.

Lemma collect_Ok {A B} (f : A → result B) xs ys :
  collect f xs = Ok ys ↔ Forall2 (λ x y, f x = Ok y) xs ys.
Proof.
  revert ys. induction xs as [|x xs IH]; intros ys; simpl.
  - split; [intros [= <-]; constructor|by intros ->%Forall2_nil_inv_l].
  - destruct (f x) as [y|e] eqn:Hx; simpl.
    + destruct (collect f xs) as [zs|e] eqn:Hxs; simpl.
      * split.
        -- intros [= <-]. constructor; [done|]. by apply IH.
        -- intros (y' & ys' & Hy & Hys & ->)%Forall2_cons_inv_l.
           apply IH in Hys. congruence.
      * split; [done|].
        intros (y' & ys' & Hy & Hys & ->)%Forall2_cons_inv_l.
        by apply IH in Hys.
    + split; [done|].
      intros (y' & ys' & Hy & Hys & ->)%Forall2_cons_inv_l. congruence.
Qed.

Lemma collect_defined {A B} (f : A → result B) xs :
  (∀ x, x ∈ xs → ∃ y, f x = Ok y) → ∃ ys, collect f xs = Ok ys.
Proof.
  induction xs as [|x xs IH]; intros Hf; [by eexists|]. simpl.
  destruct (Hf x) as [y ->]; [apply list_elem_of_here|].
  destruct IH as [ys ->]; [|by eexists].
  intros z Hz. apply Hf. by apply list_elem_of_further.
Qed.

(** C9. When the collaborators keep no state that outlives an update, the
    outcome of calculate_error (its residual, bit for bit, or the exception it
    raises) is the same from every world, in particular from the world its own
    previous call with the same vector left behind: each call expands the
    vector over the cached baseline, which no call writes, inflates the model
    with it and refreshes every group before it reads a residual. *)
Theorem calculate_error_idempotent self v w :
  rederived self →
  (∀ w2, (calculate_error self v w2).1 = (calculate_error self v w).1) ∧
  (calculate_error self v (calculate_error self v w).2).1
    = (calculate_error self v w).1.
Proof.
  intros Hre.
  assert (Hany : ∀ w2, (calculate_error self v w2).1 = (calculate_error self v w).1).
  { intros w2. rewrite !calculate_error_unfold.
    destruct (split_all self v) as [[opt poses]|e]; [|done].
    destruct (calculate_full_param_vec self opt) as [full|e]; [|done].
    simpl. f_equal. apply collect_ext. intros [ms pose] Hin. simpl.
    apply elem_of_zip_l in Hin. simpl in Hin.
    destruct (Hre full w2 w ms Hin) as [Hcb Hres].
    unfold group_residual, target_points. rewrite Hcb.
    destruct (rp_checkerboards (updated_world self full w) !! checkerboard ms)
      as [cb|]; [|reflexivity].
    simpl. do 2 f_equal. unfold sensor_residuals.
    apply list_fmap_ext. intros i s Hs. apply Hres.
    by eapply list_elem_of_lookup_2. }
  split; [done|]. apply Hany.
Qed.

End residual.

(** ** The layout of the residual *)

Section residual_layout.
Context `{C : Collaborators}.
Implicit Types (self : ErrorCalc Sensor) (ms : MultiSensor Sensor) (w : World).

Lemma length_concat_py_sum (ls : list vec) :
  length (concat ls) = py_sum (length <$> ls).
Proof.
  induction ls as [|l ls IH]; [done|]. simpl. by rewrite length_app, IH.
Qed.

Lemma length_pose_block self v :
  well_formed self v → length (pose_block self v) = 6 * length (_multisensors self).
Proof. unfold well_formed, pose_block. rewrite length_drop. lia. Qed.

Lemma split_all_well_formed self v :
  well_formed self v →
  split_all self v
  = Ok (take (py_sum_flags (_free_list self)) v,
        rows_of (length (_multisensors self)) (pose_block self v)).
Proof.
  intros Hwf%length_pose_block. unfold split_all, np_reshape_6.
  fold (pose_block self v). rewrite Hwf.
  replace (6 * length (_multisensors self)) with (length (_multisensors self) * 6)
    by lia.
  rewrite Nat.Div0.mod_mul, Nat.div_mul by lia. by rewrite decide_True.
Qed.

Lemma length_opt_param_vec self v :
  well_formed self v →
  length (take (py_sum_flags (_free_list self)) v) = py_sum_flags (_free_list self).
Proof. unfold well_formed. rewrite length_take. lia. Qed.

Lemma length_sensor_residuals self ms w w0 pts :
  contract self → ms ∈ _multisensors self →
  length (concat (sensor_residuals ms w pts)) = group_length ms w0.
Proof.
  intros Hc Hms. rewrite length_concat_py_sum. unfold group_length, sensor_residuals.
  rewrite <- list_fmap_compose. f_equal. apply list_fmap_ext.
  intros i s Hs. simpl. eapply residual_length; [done..|].
  by eapply list_elem_of_lookup_2.
Qed.

(** C8. For a vector of the expected layout, a model and sensors that keep
    their contract and at least one observation group, calculate_error
    returns; the residual is the concatenation, in group order, of one block
    per group, the block of a group being the residuals of its sensors, in
    sensor order, on the group's target under the group's pose; and its length
    is the declared total length, which depends on neither the vector nor the
    world. *)
Theorem calculate_error_layout self v w :
  contract self → well_formed self v → _multisensors self ≠ [] →
  ∃ r w' blocks,
    calculate_error self v w = (Ok r, w') ∧
    r = concat blocks ∧
    Forall2 (λ p block, ∃ pts,
               target_points p.1 (SingleTransform_transform p.2) w' = Ok pts ∧
               block = concat (sensor_residuals p.1 w' pts))
            (zip (_multisensors self)
                 (rows_of (length (_multisensors self)) (pose_block self v)))
            blocks ∧
    ∀ w0, length r = total_length self w0.
Proof.
  intros Hc Hwf Hne. rewrite calculate_error_unfold, split_all_well_formed by done.
  rewrite calculate_full_param_vec_defined;
    [|by apply length_opt_param_vec|by apply Hc].
  simpl. set (w' := updated_world self _ w).
  set (poses := rows_of _ _).
  assert (Hposes : length poses = length (_multisensors self))
    by apply length_rows_of.
  destruct (collect_defined (λ p, group_residual p.1 p.2 w')
              (zip (_multisensors self) poses)) as [blocks Hblocks].
  { intros [ms pose] Hin%elem_of_zip_l. simpl in *.
    unfold group_residual, target_points.
    destruct (target_known _ Hc w' ms Hin) as [cb ->]. by eexists. }
  rewrite Hblocks. apply collect_Ok in Hblocks.
  assert (Hlen : length blocks = length (_multisensors self)).
  { apply Forall2_length in Hblocks. rewrite length_zip in Hblocks. lia. }
  assert (Hshape : Forall2 (λ p block, ∃ pts,
            target_points p.1 (SingleTransform_transform p.2) w' = Ok pts ∧
            block = concat (sensor_residuals p.1 w' pts))
            (zip (_multisensors self) poses) blocks).
  { eapply Forall2_impl; [done|]. intros [ms pose] block. simpl.
    unfold group_residual. destruct (target_points _ _ _) as [pts|]; [|done].
    intros [= <-]. by exists pts. }
  exists (concat blocks), w', blocks. split.
  { destruct blocks; [|done]. destruct (_multisensors self); done. }
  split; [done|]. split; [done|].
  intros w0. rewrite length_concat_py_sum. unfold total_length. f_equal.
  apply list_eq_same_length with (length blocks);
    [by rewrite length_fmap|by rewrite length_fmap|].
  intros i n1 n2 Hi. rewrite !list_lookup_fmap.
  destruct (lookup_lt_is_Some_2 blocks i Hi) as [block Hb]. rewrite Hb.
  destruct (Forall2_lookup_r _ _ _ _ _ Hshape Hb) as ([ms pose] & Hz & pts & _ & ->).
  apply lookup_zip_with_Some in Hz as (ms' & pose' & [= <- <-] & Hms & _).
  rewrite Hms. simpl. intros [= <-] [= <-].
  eapply length_sensor_residuals; [done|]. by eapply list_elem_of_lookup_2.
Qed.

End residual_layout.

(** ** Arrays: writes, transposition, views *)

Section array_facts.
Implicit Types (a b v : vec) (m x : mat) (i r c n : nat).

Lemma length_np_zeros n : length (np_zeros n) = n.
Proof. apply length_replicate. Qed.

Lemma np_zeros_lookup n i : i < n → np_zeros n !! i = Some 0%float.
Proof. intros Hi. by apply lookup_replicate_2. Qed.

Lemma np_setitem_Ok a i (y : float) :
  i < length a → np_setitem a i y = Ok (<[i := y]> a).
Proof. intros Hi. unfold np_setitem. by rewrite decide_True. Qed.

Lemma np_zeros_restore n i (y : float) :
  <[i := 0%float]> (<[i := y]> (np_zeros n)) = np_zeros n.
Proof.
  rewrite list_insert_insert_eq. apply list_eq. intros j.
  destruct (decide (j < n)) as [Hj|Hj].
  - rewrite np_zeros_lookup by done.
    destruct (decide (i = j)) as [->|Hne].
    + apply list_lookup_insert_eq. by rewrite length_np_zeros.
    + rewrite list_lookup_insert_ne by done. by apply np_zeros_lookup.
  - rewrite !lookup_ge_None_2; [done|rewrite length_np_zeros; lia|].
    rewrite length_insert, length_np_zeros. lia.
Qed.

Lemma np_binop_Ok op a b :
  length a = length b → np_binop op a b = Ok (zip_with op a b).
Proof. intros Hab. unfold np_binop. by rewrite decide_True. Qed.

Lemma length_perturbed a i : length (perturbed a i) = length a.
Proof.
  unfold perturbed. rewrite length_zip_with, length_insert, length_np_zeros. lia.
Qed.

Lemma length_fd_quotient a b : length a = length b → length (fd_quotient a b) = length b.
Proof.
  intros Hab. unfold fd_quotient, np_div_scalar.
  rewrite length_fmap, length_zip_with. lia.
Qed.

Lemma fd_quotient_lookup a b r (fa fb : float) :
  a !! r = Some fa → b !! r = Some fb →
  fd_quotient a b !! r = Some (PrimFloat.div (PrimFloat.sub fa fb) epsilon).
Proof.
  intros Ha Hb. unfold fd_quotient, np_div_scalar.
  rewrite list_lookup_fmap, lookup_zip_with, Ha. simpl. by rewrite Hb.
Qed.

Lemma np_set_row_Ok m i v :
  i < length (mrows m) → length v = mcols m →
  np_set_row m i v = Ok (Mat (<[i := v]> (mrows m)) (mcols m)).
Proof.
  intros Hi Hv. unfold np_set_row. rewrite decide_True by done.
  by rewrite broadcast_1d_exact.
Qed.

Lemma shape_np_transpose m : shape (np_transpose m) = (mcols m, length (mrows m)).
Proof. unfold shape, np_transpose. simpl. by rewrite length_fmap, length_seq. Qed.

Lemma mget_np_transpose m r c :
  r < mcols m → c < length (mrows m) →
  mget (np_transpose m) r c = Some (default 0%float (mget m c r)).
Proof.
  intros Hr Hc. unfold mget, np_transpose. simpl.
  rewrite list_lookup_fmap, lookup_seq_lt by done. simpl.
  rewrite list_lookup_fmap.
  destruct (lookup_lt_is_Some_2 (mrows m) c Hc) as [row ->]. done.
Qed.

Lemma np_take_defined {A} (d : A) (a : list A) (idx : list nat) :
  Forall (λ i, i < length a) idx →
  np_take a idx = Ok ((λ i, default d (a !! i)) <$> idx).
Proof.
  induction 1 as [|i idx Hi _ IH]; [done|]. simpl.
  destruct (lookup_lt_is_Some_2 a i Hi) as [y ->]. by rewrite IH.
Qed.

End array_facts.

(** ** The pose block: multisensor_pose_jacobian *)

Section pose_kernel.
Context `{C : Collaborators}.
Implicit Types (self : ErrorCalc Sensor) (ms : MultiSensor Sensor) (w : World).

Lemma pose_fd_step_run ms (x0 f0 : vec) pts w Jt i :
  i < length x0 → length (mrows Jt) = length x0 → mcols Jt = length f0 →
  (∀ x, length (posed ms w pts x) = length f0) →
  pose_fd_step x0 f0 pts ms (Jt, np_zeros (length x0)) i w
  = (Ok (Mat (<[i := fd_quotient (posed ms w pts (perturbed x0 i)) f0]> (mrows Jt))
             (mcols Jt),
         np_zeros (length x0)), w).
Proof.
  intros Hi Hrows Hcols Hlen.
  unfold pose_fd_step, mbind, M_bind, lift, ms_compute_residual, gets.
  rewrite np_setitem_Ok by (by rewrite length_np_zeros).
  unfold np_add. rewrite np_binop_Ok by (by rewrite length_insert, length_np_zeros).
  fold (perturbed x0 i).
  change (concat (_ <$> sensors ms)) with (posed ms w pts (perturbed x0 i)).
  unfold np_sub. rewrite np_binop_Ok by apply Hlen.
  fold (fd_quotient (posed ms w pts (perturbed x0 i)) f0).
  rewrite np_set_row_Ok; [|lia|rewrite length_fd_quotient; [done|apply Hlen]].
  rewrite np_setitem_Ok by (by rewrite length_insert, length_np_zeros).
  by rewrite np_zeros_restore.
Qed.

Lemma pose_fd_loop ms (x0 f0 : vec) pts w idx rows :
  Forall (λ i, i < length x0) idx → length rows = length x0 →
  (∀ x, length (posed ms w pts x) = length f0) →
  fold_M (pose_fd_step x0 f0 pts ms) (Mat rows (length f0), np_zeros (length x0)) idx w
  = (Ok (Mat (scatter rows idx
                ((λ i, fd_quotient (posed ms w pts (perturbed x0 i)) f0) <$> idx))
             (length f0),
         np_zeros (length x0)), w).
Proof.
  intros Hidx Hrows Hlen. revert rows Hrows.
  induction Hidx as [|i idx Hi _ IH]; intros rows Hrows; [done|].
  rewrite fold_M_cons, pose_fd_step_run by done.
  cbn [mrows mcols]. by rewrite IH by (by rewrite length_insert).
Qed.

(** The pose kernel, with its loop run: the world it leaves, and its matrix as
    the transpose of the rows of difference quotients. *)
Lemma multisensor_pose_jacobian_run self (opt x0 : vec) ms w :
  contract self → ms ∈ _multisensors self →
  length opt = py_sum_flags (_free_list self) →
  let w1 := refresh_sensors (sensors ms) (rp_inflate (expand self opt) w) in
  let f0 := pose_residual ms w1 x0 in
  multisensor_pose_jacobian self opt x0 ms w
  = (Ok (np_transpose
           (Mat (scatter (replicate (length x0) (np_zeros (length f0)))
                         (seq 0 (length x0))
                         ((λ i, fd_quotient (pose_residual ms w1 (perturbed x0 i)) f0)
                            <$> seq 0 (length x0)))
                (length f0))),
     w1).
Proof.
  intros Hc Hms Hopt w1 f0.
  unfold multisensor_pose_jacobian, mbind at 1 2, M_bind, lift.
  rewrite calculate_full_param_vec_defined by (done || apply Hc).
  fold (expand self opt). unfold mbind at 1 2, M_bind, modify.
  rewrite ms_update_config_run. fold w1.
  destruct (target_known _ Hc w1 ms Hms) as [cb Hcb].
  assert (Hposed : ∀ x, pose_residual ms w1 x = posed ms w1 (cb_generate_points cb) x).
  { intros x. unfold pose_residual. by rewrite Hcb. }
  unfold mbind at 1 2, M_bind, generate_points at 1. rewrite Hcb.
  unfold ms_compute_residual at 1, gets.
  change (concat (_ <$> sensors ms)) with (posed ms w1 (cb_generate_points cb) x0).
  rewrite <- Hposed. fold f0.
  unfold mbind, M_bind, np_zeros2. rewrite pose_fd_loop.
  - unfold mret, M_ret. do 5 f_equal. apply list_fmap_ext.
    intros _ i _. by rewrite Hposed.
  - apply Forall_forall. intros i Hi%elem_of_seq. lia.
  - by rewrite length_replicate.
  - intros x. unfold f0. rewrite !Hposed. unfold posed.
    by rewrite !(length_sensor_residuals self ms w1 w1).
Qed.

End pose_kernel.

(** ** The sparsity dictionary's required keys *)

Section required_keys_facts.
Context {V : Type}.
Implicit Types (d : gmap string (gmap string V)) (key : string).

Lemma fill_step_lookup d (cur_key key : string) :
  match d !! cur_key with
  | Some _ => d
  | None => <[cur_key := ∅]> d
  end !! key
  = if decide (key = cur_key) then Some (default ∅ (d !! key)) else d !! key.
Proof.
  destruct (decide (key = cur_key)) as [->|Hne].
  - destruct (d !! cur_key) as [c|] eqn:Hd; [by rewrite Hd|].
    by rewrite lookup_insert_eq.
  - destruct (d !! cur_key); [done|]. by rewrite lookup_insert_ne.
Qed.

Lemma fill_keys_lookup (keys : list string) d key :
  foldl (λ d cur_key, match d !! cur_key with
                      | Some _ => d
                      | None => <[cur_key := ∅]> d
                      end) d keys !! key
  = if decide (key ∈ keys) then Some (default ∅ (d !! key)) else d !! key.
Proof.
  revert d. induction keys as [|k keys IH]; intros d; simpl.
  - done.
  - rewrite IH, fill_step_lookup.
    destruct (decide (key ∈ k :: keys)) as [Hin|Hout].
    + destruct (decide (key = k)) as [->|Hne].
      * simpl. by destruct (decide (k ∈ keys)).
      * destruct (decide (key ∈ keys)) as [|Hn]; [done|].
        apply elem_of_cons in Hin as [?|?]; done.
    + destruct (decide (key ∈ keys)) as [Hin|_].
      { destruct Hout. by right. }
      destruct (decide (key = k)) as [->|_]; [|done].
      destruct Hout. by left.
Qed.

Lemma fill_required_keys_lookup d key :
  fill_required_keys d !! key
  = if decide (key ∈ required_keys) then Some (default ∅ (d !! key)) else d !! key.
Proof. apply fill_keys_lookup. Qed.

Lemma fill_required_keys_has d key :
  key ∈ required_keys → is_Some (fill_required_keys d !! key).
Proof. intros Hkey. by rewrite fill_required_keys_lookup, decide_True. Qed.

End required_keys_facts.

(** ** The parameter block: single_sensor_params_jacobian *)

Section params_kernel.
Context `{C : Collaborators}.
Implicit Types (self : ErrorCalc Sensor) (ms : MultiSensor Sensor) (w : World).
Implicit Types (s : Sensor) (T : Transform) (target_id : string).

Lemma generate_points_known target_id w cb :
  rp_checkerboards w !! target_id = Some cb →
  generate_points target_id w = (Ok (cb_generate_points cb), w).
Proof. intros Hcb. unfold generate_points. by rewrite Hcb. Qed.

Lemma params_fd_step_run self (x0 f0 : vec) T target_id s Jt i w :
  length (_free_list self) ≤ length (_expanded_params self) →
  length x0 = py_sum_flags (_free_list self) →
  (∀ w, is_Some (rp_checkerboards w !! target_id)) →
  (∀ w, length (sensor_residual s T target_id w) = length f0) →
  i < length x0 → length (mrows Jt) = length x0 → mcols Jt = length f0 →
  let w1 := sensor_world self s (perturbed x0 i) w in
  params_fd_step self x0 f0 T target_id s (Jt, np_zeros (length x0)) i w
  = (Ok (Mat (<[i := fd_quotient (sensor_residual s T target_id w1) f0]> (mrows Jt))
             (mcols Jt),
         np_zeros (length x0)), w1).
Proof.
  intros Hexp Hx0 Hcb Hlen Hi Hrows Hcols w1.
  unfold params_fd_step, mbind, M_bind, lift, gets, modify.
  rewrite np_setitem_Ok by (by rewrite length_np_zeros).
  unfold np_add. rewrite np_binop_Ok by (by rewrite length_insert, length_np_zeros).
  fold (perturbed x0 i).
  rewrite calculate_full_param_vec_defined by (by rewrite ?length_perturbed).
  fold (expand self (perturbed x0 i)). fold (sensor_world self s (perturbed x0 i) w).
  fold w1. destruct (Hcb w1) as [cb Hcb1].
  rewrite (generate_points_known _ _ _ Hcb1).
  assert (Hres : sensor_compute_residual s w1 (transform_mul T (cb_generate_points cb))
                 = sensor_residual s T target_id w1).
  { unfold sensor_residual. by rewrite Hcb1. }
  rewrite Hres. unfold np_sub. rewrite np_binop_Ok by apply Hlen.
  fold (fd_quotient (sensor_residual s T target_id w1) f0).
  rewrite np_set_row_Ok; [|lia|rewrite length_fd_quotient; [done|apply Hlen]].
  rewrite np_setitem_Ok by (by rewrite length_insert, length_np_zeros).
  by rewrite np_zeros_restore.
Qed.

Lemma params_fd_loop self (x0 f0 : vec) T target_id s idx rows w :
  length (_free_list self) ≤ length (_expanded_params self) →
  length x0 = py_sum_flags (_free_list self) →
  (∀ w, is_Some (rp_checkerboards w !! target_id)) →
  (∀ w, length (sensor_residual s T target_id w) = length f0) →
  Forall (λ i, i < length x0) idx → length rows = length x0 →
  let qs := params_quotients self x0 f0 T target_id s idx w in
  fold_M (params_fd_step self x0 f0 T target_id s)
         (Mat rows (length f0), np_zeros (length x0)) idx w
  = (Ok (Mat (scatter rows idx qs.1) (length f0), np_zeros (length x0)), qs.2).
Proof.
  intros Hexp Hx0 Hcb Hlen Hidx. revert rows w.
  induction Hidx as [|i idx Hi _ IH]; intros rows w Hrows; [done|].
  rewrite fold_M_cons, params_fd_step_run by done.
  cbn [mrows mcols]. by rewrite IH by (by rewrite length_insert).
Qed.

Lemma opt_sparsity_bound self s w :
  Forall (λ i, i < py_sum_flags (_free_list self)) (np_where (opt_sparsity self s w)).
Proof.
  eapply Forall_impl; [apply np_where_bound|]. simpl. intros i.
  unfold opt_sparsity. by rewrite length_fmap, length_np_where.
Qed.

(** The parameter kernel, with its loop run. *)
Lemma single_sensor_params_jacobian_run self (opt : vec) ms s T w :
  contract self → masks_aligned self →
  ms ∈ _multisensors self → s ∈ sensors ms →
  length opt = py_sum_flags (_free_list self) →
  single_sensor_params_jacobian self opt T (checkerboard ms) s w
  = (Ok (params_jacobian self opt T (checkerboard ms) s w).1,
     (params_jacobian self opt T (checkerboard ms) s w).2).
Proof.
  intros Hc Hmask Hms Hs Hopt.
  assert (Hcb : ∀ w, is_Some (rp_checkerboards w !! checkerboard ms))
    by (intros w0; by apply Hc).
  assert (Hlen : ∀ w0 w0', length (sensor_residual s T (checkerboard ms) w0)
                           = sensor_get_residual_length s w0').
  { intros w0 w0'. unfold sensor_residual. destruct (Hcb w0) as [cb ->].
    by eapply residual_length. }
  destruct (Hmask w (fill_required_keys (sensor_build_sparsity_dict s w)))
    as (mask & Hcf & Hlong); [apply fill_required_keys_has|].
  assert (Hfull : full_sparsity s w = mask) by (unfold full_sparsity; by rewrite Hcf).
  unfold single_sensor_params_jacobian, params_jacobian.
  unfold mbind at 1 2 3, M_bind, gets, lift, calc_free.
  rewrite Hcf, <- Hfull.
  rewrite (np_take_defined false); last first.
  { eapply Forall_impl; [apply np_where_bound|]. simpl. intros i Hi.
    rewrite Hfull. lia. }
  fold (opt_sparsity self s w). unfold mbind at 1 2 3, M_bind, modify.
  rewrite calculate_full_param_vec_defined by (done || apply Hc).
  fold (expand self opt). fold (sensor_world self s opt w).
  set (w1 := sensor_world self s opt w).
  destruct (Hcb w1) as [cb Hcb1].
  unfold mbind at 1 2, M_bind. rewrite (generate_points_known _ _ _ Hcb1).
  assert (Hres : sensor_compute_residual s w1 (transform_mul T (cb_generate_points cb))
                 = sensor_residual s T (checkerboard ms) w1).
  { unfold sensor_residual. by rewrite Hcb1. }
  rewrite Hres. set (f0 := sensor_residual s T (checkerboard ms) w1).
  unfold mbind, M_bind, np_zeros2. rewrite params_fd_loop; try done.
  - apply Hc.
  - intros w0. unfold f0. by rewrite !(Hlen _ w).
  - rewrite Hopt. apply opt_sparsity_bound.
  - by rewrite length_replicate.
Qed.

End params_kernel.

(** ** The entries of the two kernels' matrices *)

Section kernel_entries.
Context `{C : Collaborators}.
Implicit Types (self : ErrorCalc Sensor) (ms : MultiSensor Sensor) (w : World).
Implicit Types (s : Sensor) (T : Transform) (target_id : string).

Lemma shape_transposed_rows n L idx qs : shape (transposed_rows n L idx qs) = (L, n).
Proof.
  unfold transposed_rows. rewrite shape_np_transpose. simpl.
  by rewrite length_scatter, length_replicate.
Qed.

Lemma transposed_rows_zero n L idx qs r c :
  r < L → c < n → c ∉ idx → mget (transposed_rows n L idx qs) r c = Some 0%float.
Proof.
  intros Hr Hc Hidx. unfold transposed_rows.
  rewrite mget_np_transpose;
    [|done|by simpl; rewrite length_scatter, length_replicate].
  unfold mget. simpl. rewrite scatter_lookup_notin by done.
  rewrite lookup_replicate_2 by done. simpl. by rewrite np_zeros_lookup.
Qed.

Lemma transposed_rows_written n L idx qs k i q r :
  NoDup idx → idx !! k = Some i → i < n → qs !! k = Some q → length q = L →
  r < L → mget (transposed_rows n L idx qs) r i = q !! r.
Proof.
  intros Hnd Hk Hi Hq Hlen Hr. unfold transposed_rows.
  rewrite mget_np_transpose;
    [|done|by simpl; rewrite length_scatter, length_replicate].
  unfold mget. simpl.
  rewrite (scatter_lookup_in _ _ _ k);
    [|done|by rewrite length_replicate|done|by apply lookup_lt_Some in Hq].
  rewrite Hq. simpl.
  destruct (lookup_lt_is_Some_2 q r) as [y ->]; [lia|done].
Qed.

Lemma params_quotients_shape self (x0 f0 : vec) T target_id s idx w :
  (∀ w, length (sensor_residual s T target_id w) = length f0) →
  length (params_quotients self x0 f0 T target_id s idx w).1 = length idx ∧
  Forall (λ q, length q = length f0)
         (params_quotients self x0 f0 T target_id s idx w).1.
Proof.
  intros Hlen. revert w. induction idx as [|i idx IH]; intros w; simpl.
  - by split.
  - destruct (IH (sensor_world self s (perturbed x0 i) w)) as [IH1 IH2].
    split; [by rewrite IH1|]. constructor; [|done].
    by rewrite length_fd_quotient.
Qed.

Lemma params_quotients_worlds self (x0 f0 : vec) T target_id s idx w :
  (params_quotients self x0 f0 T target_id s idx w).1
  = (λ wk, fd_quotient (sensor_residual s T target_id wk) f0)
      <$> params_worlds self x0 s idx w ∧
  (params_quotients self x0 f0 T target_id s idx w).2
  = default w (last (params_worlds self x0 s idx w)).
Proof.
  revert w. induction idx as [|i idx IH]; intros w; [done|]. simpl.
  destruct (IH (sensor_world self s (perturbed x0 i) w)) as [-> ->].
  split; [done|]. rewrite last_cons. by destruct (last _).
Qed.

Lemma length_rows_of_6 k (v : vec) :
  length v = 6 * k → Forall (λ row, length row = 6) (rows_of k v).
Proof.
  revert v. induction k as [|k IH]; intros v Hv; simpl; constructor.
  - rewrite length_take. lia.
  - apply IH. rewrite length_drop. lia.
Qed.

Lemma split_all_rows_6 self v (opt : vec) poses :
  split_all self v = Ok (opt, poses) → Forall (λ row, length row = 6) poses.
Proof.
  unfold split_all, np_reshape_6.
  destruct (decide _) as [Hmod|]; [|done]. intros [= _ <-].
  apply length_rows_of_6. by apply Nat.Div0.div_exact in Hmod.
Qed.

(** C4. The step of both kernels is [epsilon = 1e-6].  In the pose kernel,
    for every index [i] of the pose vector (six of them for a pose that
    split_all cut out), column [i] of the returned matrix is
    [(f(x0 + epsilon e_i) - f(x0)) / epsilon], entry by entry, with [f] the
    group's residual as a function of the pose.  In the parameter kernel the
    indices taken are those the sensor's sparsity mask flags among the free
    parameters: the column of the [k]-th flagged index [i] is the same
    quotient, of the residual read after the model was inflated with
    [x0 + epsilon e_i] and of the residual at [x0]; every other column is
    zero.  In both, each perturbed vector differs from [x0] at the one index
    [i]: the step added for the previous index was reset to zero. *)
#[warnings="-inexact-float"]
Theorem forward_difference_kernels self (opt pose : vec) ms s T w :
  contract self → masks_aligned self →
  ms ∈ _multisensors self → s ∈ sensors ms →
  length opt = py_sum_flags (_free_list self) →
  epsilon = 1e-6%float ∧
  (∀ v opt' poses, split_all self v = Ok (opt', poses) →
     Forall (λ x0, length x0 = 6) poses) ∧
  (let w1 := refresh_sensors (sensors ms) (rp_inflate (expand self opt) w) in
   let f := pose_residual ms w1 in
   ∃ J, multisensor_pose_jacobian self opt pose ms w = (Ok J, w1) ∧
        shape J = (length (f pose), length pose) ∧
        ∀ i r fi f0r, i < length pose →
          f (perturbed pose i) !! r = Some fi → f pose !! r = Some f0r →
          mget J r i = Some (PrimFloat.div (PrimFloat.sub fi f0r) epsilon)) ∧
  (let idx := np_where (opt_sparsity self s w) in
   let w1 := sensor_world self s opt w in
   let f0 := sensor_residual s T (checkerboard ms) w1 in
   let worlds := params_worlds self opt s idx w1 in
   ∃ J, single_sensor_params_jacobian self opt T (checkerboard ms) s w
          = (Ok J, default w1 (last worlds)) ∧
        shape J = (length f0, length opt) ∧
        (∀ k i wk r fi f0r, idx !! k = Some i → worlds !! k = Some wk →
           sensor_residual s T (checkerboard ms) wk !! r = Some fi →
           f0 !! r = Some f0r →
           mget J r i = Some (PrimFloat.div (PrimFloat.sub fi f0r) epsilon)) ∧
        (∀ c r, c < length opt → c ∉ idx → r < length f0 →
           mget J r c = Some 0%float)).
Proof.
  intros Hc Hmask Hms Hs Hopt.
  split; [reflexivity|]. split; [intros v opt' poses; apply split_all_rows_6|].
  split.
  - intros w1 f. eexists. split; [by apply multisensor_pose_jacobian_run|].
    fold w1. fold (f pose).
    change (np_transpose ?m) with
      (transposed_rows (length pose) (length (f pose)) (seq 0 (length pose))
         ((λ i, fd_quotient (f (perturbed pose i)) (f pose)) <$> seq 0 (length pose))).
    split; [apply shape_transposed_rows|].
    intros i r fi f0r Hi Hfi Hf0.
    assert (Hlen : ∀ x, length (f x) = length (f pose)).
    { intros x. unfold f, pose_residual.
      destruct (target_known _ Hc w1 ms Hms) as [cb ->].
      by rewrite !(length_sensor_residuals self ms w1 w1). }
    rewrite <- (fd_quotient_lookup _ _ _ _ _ Hfi Hf0).
    apply (transposed_rows_written _ _ _ _ i); try done.
    + apply NoDup_seq.
    + by apply lookup_seq_lt.
    + by rewrite list_lookup_fmap, lookup_seq_lt.
    + by rewrite length_fd_quotient.
    + by apply lookup_lt_Some in Hf0.
  - intros idx w1 f0 worlds.
    assert (Hlen : ∀ w0, length (sensor_residual s T (checkerboard ms) w0) = length f0).
    { intros w0. unfold f0, sensor_residual.
      destruct (target_known _ Hc w0 ms Hms) as [cb ->].
      destruct (target_known _ Hc w1 ms Hms) as [cb1 ->].
      rewrite !(residual_length _ Hc ms s Hms Hs _ w). done. }
    destruct (params_quotients_worlds self opt f0 T (checkerboard ms) s idx w1)
      as [Hqs Hlast].
    fold worlds in Hqs, Hlast. rewrite <- Hlast.
    eexists. split; [by eapply single_sensor_params_jacobian_run|].
    unfold params_jacobian. fold idx w1 f0. cbn [fst snd].
    change (np_transpose ?m) with
      (transposed_rows (length opt) (length f0) idx
         (params_quotients self opt f0 T (checkerboard ms) s idx w1).1).
    rewrite Hqs.
    split; [apply shape_transposed_rows|]. split.
    + intros k i wk r fi f0r Hk Hwk Hfi Hf0.
      rewrite <- (fd_quotient_lookup _ _ _ _ _ Hfi Hf0).
      apply (transposed_rows_written _ _ _ _ k); try done.
      * apply NoDup_np_where.
      * rewrite Hopt.
        apply (Forall_lookup_1 _ _ _ _ (opt_sparsity_bound self s w) Hk).
      * by rewrite list_lookup_fmap, Hwk.
      * by rewrite length_fd_quotient.
      * by apply lookup_lt_Some in Hf0.
    + intros c r Hc' Hidx Hr. by apply transposed_rows_zero.
Qed.

End kernel_entries.

(** ** Partial sums and views *)

Section layout_facts.
Implicit Types (ns : list nat) (k n r c : nat) (m x : mat) (v : view).

Lemma py_index_Some {A} (l : list A) k (y : A) : l !! k = Some y → py_index l k = Ok y.
Proof. intros Hk. unfold py_index. by rewrite Hk. Qed.

Lemma cumsum_from_lookup acc ns k :
  k < length ns → cumsum_from acc ns !! k = Some (acc + py_sum (take (S k) ns)).
Proof.
  revert acc k. induction ns as [|n ns IH]; intros acc k Hk; simpl in *; [lia|].
  destruct k as [|k]; simpl.
  - f_equal. destruct ns; simpl; lia.
  - rewrite IH by lia. simpl. f_equal. lia.
Qed.

Lemma length_cumsum_from acc ns : length (cumsum_from acc ns) = length ns.
Proof. revert acc. induction ns as [|n ns IH]; intros acc; simpl; auto. Qed.

Lemma np_cumsum_lookup ns k :
  k < length ns → np_cumsum ns !! k = Some (py_sum (take (S k) ns)).
Proof. intros Hk. unfold np_cumsum. by rewrite cumsum_from_lookup. Qed.

Lemma starts_of_cumsum_lookup ns k :
  k < length ns → starts_of (np_cumsum ns) !! k = Some (py_sum (take k ns)).
Proof.
  intros Hk. unfold starts_of. destruct k as [|k]; [done|]. simpl.
  rewrite lookup_take_lt by (unfold np_cumsum; rewrite length_cumsum_from; lia).
  apply np_cumsum_lookup. lia.
Qed.

Lemma py_sum_app ns1 ns2 : py_sum (ns1 ++ ns2) = py_sum ns1 + py_sum ns2.
Proof. induction ns1 as [|n ns1 IH]; simpl; [done|]. rewrite IH. lia. Qed.

Lemma py_sum_take_le ns k : py_sum (take k ns) ≤ py_sum ns.
Proof.
  rewrite <- (take_drop k ns) at 2. rewrite py_sum_app. lia.
Qed.

Lemma py_sum_take_mono ns k k' : k ≤ k' → py_sum (take k ns) ≤ py_sum (take k' ns).
Proof.
  intros Hk. replace (take k ns) with (take k (take k' ns)).
  - apply py_sum_take_le.
  - rewrite take_take. f_equal. lia.
Qed.

Lemma py_sum_take_S ns k n :
  ns !! k = Some n → py_sum (take (S k) ns) = py_sum (take k ns) + n.
Proof.
  intros Hk. rewrite (take_S_r _ _ _ Hk), py_sum_app. simpl. lia.
Qed.

(** The intervals between consecutive partial sums do not overlap. *)
Lemma partial_sums_disjoint ns k k' r :
  py_sum (take k ns) ≤ r < py_sum (take (S k) ns) →
  py_sum (take k' ns) ≤ r < py_sum (take (S k') ns) →
  k = k'.
Proof.
  intros Hk Hk'. destruct (Nat.lt_trichotomy k k') as [Hlt|[->|Hlt]]; [|done|].
  - pose proof (py_sum_take_mono ns (S k) k'). lia.
  - pose proof (py_sum_take_mono ns (S k') k). lia.
Qed.

Lemma py_sum_replicate n k : py_sum (replicate n k) = n * k.
Proof. induction n as [|n IH]; simpl; [done|]. rewrite IH. lia. Qed.

Lemma pose_columns_lookup n nfree k :
  k < n →
  let ends := (λ y, y + nfree) <$> np_cumsum (replicate n 6) in
  ends !! k = Some (6 * S k + nfree) ∧
  ((λ y, y - 6) <$> ends) !! k = Some (6 * k + nfree).
Proof.
  intros Hk ends. unfold ends.
  rewrite !list_lookup_fmap, np_cumsum_lookup by (by rewrite length_replicate).
  rewrite take_replicate, py_sum_replicate.
  replace (S k `min` n) with (S k) by lia. simpl. split; f_equal; lia.
Qed.

Lemma view_slice_whole m r0 r1 c0 c1 :
  r0 ≤ r1 ≤ length (mrows m) → c0 ≤ c1 ≤ mcols m →
  view_slice (whole m) r0 r1 c0 c1 = View r0 (r1 - r0) c0 (c1 - c0).
Proof.
  intros Hr Hc. unfold view_slice, whole, py_slice. simpl. f_equal; lia.
Qed.

Lemma view_rows_inside a n b cols s0 s1 :
  s0 ≤ s1 ≤ n →
  view_rows (View a n b cols) s0 s1 = View (a + s0) (s1 - s0) b cols.
Proof. intros Hs. unfold view_rows, py_slice. simpl. f_equal; lia. Qed.

Lemma in_view_true v r c :
  in_view v r c = true ↔
  v_row v ≤ r < v_row v + v_nrows v ∧ v_col v ≤ c < v_col v + v_ncols v.
Proof. unfold in_view. apply bool_decide_eq_true. Qed.

Lemma view_assign_Ok m v x :
  shape x = (v_nrows v, v_ncols v) →
  ∃ m', view_assign m v x = Ok m' ∧ shape m' = shape m ∧
    ∀ r c, mget m' r c
           = (λ old, if in_view v r c
                     then default 0%float (mget x (r - v_row v) (c - v_col v))
                     else old) <$> mget m r c.
Proof.
  unfold shape. intros [= Hr Hc]. unfold view_assign.
  rewrite decide_True by (split; by left). eexists. split; [done|].
  split; [unfold shape; simpl; by rewrite length_imap|].
  intros r c. unfold mget. simpl. rewrite list_lookup_imap.
  destruct (mrows m !! r) as [row|]; [|done]. simpl.
  rewrite list_lookup_imap. destruct (row !! c) as [old|]; [|done]. simpl.
  unfold bc_get, bc_index. by rewrite !decide_True.
Qed.

End layout_facts.

(** ** The Jacobian: calculate_jacobian *)

Section jacobian.
Context `{C : Collaborators}.
Implicit Types (self : ErrorCalc Sensor) (ms : MultiSensor Sensor) (w : World).
Implicit Types (s : Sensor) (J X : mat) (v opt : vec).

Lemma wp_eq {A} (m : M A) w (a : A) w' Q : m w = (Ok a, w') → Q a w' → wp m w Q.
Proof. unfold wp. by intros ->. Qed.

Lemma map_M_gets {A B} (f : A → World → B) (xs : list A) w :
  map_M (λ x, gets (f x)) xs w = (Ok ((λ x, f x w) <$> xs), w).
Proof.
  induction xs as [|x xs IH]; [done|].
  simpl. unfold mbind at 1 2, M_bind, gets at 1. by rewrite IH.
Qed.

Lemma residual_length_fixed self ms s w1 w2 :
  contract self → ms ∈ _multisensors self → s ∈ sensors ms →
  sensor_get_residual_length s w1 = sensor_get_residual_length s w2.
Proof.
  intros Hc Hms Hs. destruct (target_known _ Hc w1 ms Hms) as [cb _].
  rewrite <- (residual_length _ Hc ms s Hms Hs w1 w1 (cb_generate_points cb)).
  apply (residual_length _ Hc ms s Hms Hs).
Qed.

Lemma sensor_lengths_fixed self ms w1 w2 :
  contract self → ms ∈ _multisensors self →
  (λ s, sensor_get_residual_length s w1) <$> sensors ms
  = (λ s, sensor_get_residual_length s w2) <$> sensors ms.
Proof.
  intros Hc Hms. apply list_fmap_ext. intros i s Hs.
  apply (residual_length_fixed self ms); [done..|]. by eapply list_elem_of_lookup_2.
Qed.

Lemma row_start_S self w k ms :
  _multisensors self !! k = Some ms →
  row_start self w (S k) = row_start self w k + group_length ms w.
Proof.
  intros Hk. unfold row_start. apply py_sum_take_S.
  by rewrite list_lookup_fmap, Hk.
Qed.

Lemma row_start_le_total self w k : row_start self w k ≤ total_length self w.
Proof. apply py_sum_take_le. Qed.

Lemma sensor_start_S ms w j s :
  sensors ms !! j = Some s →
  sensor_start ms w (S j) = sensor_start ms w j + sensor_get_residual_length s w.
Proof.
  intros Hj. unfold sensor_start. apply py_sum_take_S.
  by rewrite list_lookup_fmap, Hj.
Qed.

Lemma sensor_start_le_group ms w j : sensor_start ms w j ≤ group_length ms w.
Proof. apply py_sum_take_le. Qed.

Lemma elem_of_zip_seq {A} (l : list A) pre j (y : A) post :
  zip (seq 0 (length l)) l = pre ++ (j, y) :: post → l !! j = Some y.
Proof.
  intros Hzip.
  assert (Hlook : zip (seq 0 (length l)) l !! length pre = Some (j, y)).
  { rewrite Hzip. by rewrite list_lookup_middle. }
  apply lookup_zip_with_Some in Hlook as (j' & y' & [= <- <-] & Hseq & Hl).
  apply lookup_seq in Hseq as [-> _]. done.
Qed.

Lemma block_sparse_zeros self w v :
  block_sparse self w v (np_zeros2 (total_length self w) (length v)).
Proof.
  split.
  - unfold shape, np_zeros2. simpl. by rewrite length_replicate.
  - intros r c Hr Hc. exists 0%float. split; [|by left].
    unfold mget, np_zeros2. simpl. rewrite lookup_replicate_2 by done. simpl.
    by apply np_zeros_lookup.
Qed.

(** Writing a block through a view keeps the Jacobian block sparse when every
    entry written is zero or falls where a nonzero entry is allowed. *)
Lemma block_sparse_assign self w0 v J (vw : view) X :
  block_sparse self w0 v J →
  shape X = (v_nrows vw, v_ncols vw) →
  (∀ r c, r < total_length self w0 → c < length v → in_view vw r c = true →
     default 0%float (mget X (r - v_row vw) (c - v_col vw)) = 0%float ∨
     allowed self w0 r c) →
  ∃ J', view_assign J vw X = Ok J' ∧ block_sparse self w0 v J'.
Proof.
  intros [Hshape Hent] HX Hnew.
  destruct (view_assign_Ok J vw X HX) as (J' & HJ' & Hshape' & Hget).
  exists J'. split; [done|]. split; [congruence|].
  intros r c Hr Hc. destruct (Hent r c Hr Hc) as (y & Hy & Hyz).
  rewrite Hget, Hy. simpl. eexists. split; [done|].
  destruct (in_view vw r c) eqn:Hin; [|done]. by apply Hnew.
Qed.

(** The parameter block of one sensor keeps the Jacobian block sparse. *)
Lemma jacobian_sensor_step_wp self w0 v opt (T : Transform) k ms j s J w w1 :
  contract self → masks_aligned self →
  length opt = py_sum_flags (_free_list self) → length opt ≤ length v →
  _multisensors self !! k = Some ms → sensors ms !! j = Some s →
  block_sparse self w0 v J →
  let s_end_row := np_cumsum ((λ s, sensor_get_residual_length s w1) <$> sensors ms) in
  wp (jacobian_sensor_step self opt T (checkerboard ms)
        (View (row_start self w0 k) (group_length ms w0) 0 (length opt))
        (starts_of s_end_row) s_end_row J (j, s)) w
     (λ J' _, block_sparse self w0 v J').
Proof.
  intros Hc Hmask Hopt Hv Hk Hj HJ s_end_row.
  assert (Hms : ms ∈ _multisensors self) by (by eapply list_elem_of_lookup_2).
  assert (Hs : s ∈ sensors ms) by (by eapply list_elem_of_lookup_2).
  assert (Hjlt : j < length ((λ s, sensor_get_residual_length s w1) <$> sensors ms)).
  { rewrite length_fmap. by eapply lookup_lt_Some. }
  unfold jacobian_sensor_step, s_end_row.
  wp_lift (py_index_Some _ _ _ (starts_of_cumsum_lookup _ _ Hjlt)).
  wp_lift (py_index_Some _ _ _ (np_cumsum_lookup _ _ Hjlt)).
  fold (sensor_start ms w1 j). fold (sensor_start ms w1 (S j)).
  assert (Hst : ∀ i, sensor_start ms w1 i = sensor_start ms w0 i).
  { intros i. unfold sensor_start. by rewrite (sensor_lengths_fixed self ms w1 w0). }
  rewrite !Hst. pose proof (sensor_start_S ms w0 j s Hj) as HS.
  pose proof (sensor_start_le_group ms w0 (S j)) as Hle.
  rewrite view_rows_inside by lia.
  wp_bind. eapply wp_eq; [by eapply single_sensor_params_jacobian_run|].
  set (idx := np_where (opt_sparsity self s w)).
  set (w2 := sensor_world self s opt w).
  set (f0 := sensor_residual s T (checkerboard ms) w2).
  assert (Hf0 : length f0 = sensor_get_residual_length s w0).
  { unfold f0, sensor_residual. destruct (target_known _ Hc w2 ms Hms) as [cb ->].
    by eapply residual_length. }
  unfold params_jacobian. fold idx w2 f0. cbn [fst snd].
  set (qs := params_quotients self opt f0 T (checkerboard ms) s idx w2).
  change (np_transpose ?m) with (transposed_rows (length opt) (length f0) idx qs.1).
  destruct (block_sparse_assign self w0 v J
              (View (row_start self w0 k + sensor_start ms w0 j)
                    (sensor_start ms w0 (S j) - sensor_start ms w0 j) 0 (length opt))
              (transposed_rows (length opt) (length f0) idx qs.1) HJ)
    as (J' & HJ' & Hsparse).
  - rewrite shape_transposed_rows. simpl. f_equal. lia.
  - intros r c Hr Hcv [Hrow Hcol]%in_view_true. simpl in Hrow, Hcol.
    destruct (decide (c ∈ idx)) as [Hin|Hout].
    + right. exists k, ms. split; [done|]. split.
      { unfold group_row. rewrite (row_start_S self w0 k ms Hk). lia. }
      right. split; [lia|]. exists j, s. split; [done|]. split.
      { unfold sensor_row. lia. }
      by exists w.
    + left. simpl. rewrite transposed_rows_zero; [done|lia|lia|].
      by rewrite Nat.sub_0_r.
  - eapply wp_lift; [done|]. done.
Qed.

(** The blocks of one observation group keep the Jacobian block sparse. *)
Lemma jacobian_group_step_wp self w0 v k ms J w :
  contract self → masks_aligned self → well_formed self v →
  _multisensors self !! k = Some ms →
  block_sparse self w0 v J →
  let opt := take (py_sum_flags (_free_list self)) v in
  let poses := rows_of (length (_multisensors self)) (pose_block self v) in
  let ms_end_row := np_cumsum ((λ ms, group_length ms w0) <$> _multisensors self) in
  let ms_end_col :=
    (λ x, x + length opt) <$> np_cumsum (replicate (length (_multisensors self)) 6) in
  wp (jacobian_group_step self opt poses (starts_of ms_end_row) ms_end_row
        ((λ x, x - 6) <$> ms_end_col) ms_end_col J (k, ms)) w
     (λ J' _, block_sparse self w0 v J').
Proof.
  intros Hc Hmask Hwf Hk HJ opt poses ms_end_row ms_end_col.
  assert (Hms : ms ∈ _multisensors self) by (by eapply list_elem_of_lookup_2).
  assert (Hkn : k < length (_multisensors self)) by (by eapply lookup_lt_Some).
  assert (Hopt : length opt = py_sum_flags (_free_list self))
    by (by apply length_opt_param_vec).
  assert (Hv : length v = length opt + 6 * length (_multisensors self))
    by (by rewrite Hopt).
  assert (Hklt : k < length ((λ ms, group_length ms w0) <$> _multisensors self))
    by (by rewrite length_fmap).
  destruct (lookup_lt_is_Some_2 poses k) as [pose Hpose].
  { unfold poses. by rewrite length_rows_of. }
  assert (Hpose6 : length pose = 6).
  { eapply (Forall_lookup_1 (λ row, length row = 6)); [|exact Hpose].
    apply length_rows_of_6. by apply length_pose_block. }
  pose proof (row_start_S self w0 k ms Hk) as HS.
  pose proof (row_start_le_total self w0 (S k)) as Hle.
  unfold jacobian_group_step, ms_end_row.
  wp_lift (py_index_Some _ _ _ (starts_of_cumsum_lookup _ _ Hklt)).
  wp_lift (py_index_Some _ _ _ (np_cumsum_lookup _ _ Hklt)).
  fold (row_start self w0 k). fold (row_start self w0 (S k)).
  wp_bind. eapply wp_eq; [apply map_M_gets|].
  wp_lift (py_index_Some _ _ _ Hpose).
  wp_bind.
  assert (Hshape0 : shape J = (total_length self w0, length v)) by apply HJ.
  injection Hshape0 as Hrows0 Hcols0.
  rewrite view_slice_whole by lia.
  replace (row_start self w0 (S k) - row_start self w0 k)
    with (group_length ms w0) by lia.
  rewrite Nat.sub_0_r.
  eapply wp_mono.
  { apply (wp_fold_M _ _ (λ _ J' _, block_sparse self w0 v J')); [done|].
    intros pre [j s] post J1 w1 Hzip HJ1.
    apply elem_of_zip_seq in Hzip.
    apply jacobian_sensor_step_wp; try done. lia. }
  intros J1 w1 HJ1. cbn beta.
  destruct (pose_columns_lookup (length (_multisensors self)) (length opt) k Hkn)
    as [Hend Hstart].
  wp_lift (py_index_Some _ _ _ Hstart).
  wp_lift (py_index_Some _ _ _ Hend).
  assert (Hshape1 : shape J1 = (total_length self w0, length v)) by apply HJ1.
  injection Hshape1 as Hrows1 Hcols1.
  rewrite view_slice_whole by lia.
  replace (row_start self w0 (S k) - row_start self w0 k)
    with (group_length ms w0) by lia.
  replace (6 * S k + length opt - (6 * k + length opt)) with 6 by lia.
  wp_bind. eapply wp_lift; [by unfold py_assert; rewrite decide_True|].
  wp_lift (py_index_Some _ _ _ Hpose).
  wp_bind. eapply wp_eq; [by eapply multisensor_pose_jacobian_run|].
  set (w2 := refresh_sensors (sensors ms) (rp_inflate (expand self opt) w1)).
  set (f0 := pose_residual ms w2 pose).
  assert (Hf0 : length f0 = group_length ms w0).
  { unfold f0, pose_residual. destruct (target_known _ Hc w2 ms Hms) as [cb ->].
    by eapply length_sensor_residuals. }
  change (np_transpose ?m) with
    (transposed_rows (length pose) (length f0) (seq 0 (length pose))
       ((λ i, fd_quotient (pose_residual ms w2 (perturbed pose i)) f0)
          <$> seq 0 (length pose))).
  destruct (block_sparse_assign self w0 v J1
              (View (row_start self w0 k) (group_length ms w0)
                    (6 * k + length opt) 6)
              (transposed_rows (length pose) (length f0) (seq 0 (length pose))
                 ((λ i, fd_quotient (pose_residual ms w2 (perturbed pose i)) f0)
                    <$> seq 0 (length pose))) HJ1)
    as (J' & HJ' & Hsparse).
  - rewrite shape_transposed_rows. simpl. by rewrite Hf0, Hpose6.
  - intros r c Hr Hcv [Hrow Hcol]%in_view_true. simpl in Hrow, Hcol.
    right. exists k, ms. split; [done|]. split.
    { unfold group_row. lia. }
    left. unfold pose_col. lia.
  - eapply wp_lift; [done|]. done.
Qed.

(** calculate_jacobian returns, and what it returns is block sparse. *)
Lemma calculate_jacobian_block_sparse self v w :
  contract self → masks_aligned self → well_formed self v →
  wp (calculate_jacobian self v) w (λ J _, block_sparse self w v J).
Proof.
  intros Hc Hmask Hwf. unfold calculate_jacobian.
  wp_lift (split_all_well_formed self v Hwf). cbn beta iota.
  wp_bind. eapply wp_eq; [apply map_M_gets|]. cbn beta.
  change (λ x : MultiSensor Sensor,
            py_sum ((λ s, sensor_get_residual_length s w) <$> sensors x))
    with (λ ms, group_length ms w).
  change (py_sum ((λ ms, group_length ms w) <$> _multisensors self))
    with (total_length self w).
  wp_bind. eapply wp_mono.
  { apply (wp_fold_M _ _ (λ _ J' _, block_sparse self w v J')).
    - apply block_sparse_zeros.
    - intros pre [k ms] post J1 w1 Hzip HJ1.
      apply elem_of_zip_seq in Hzip.
      by apply jacobian_group_step_wp. }
  intros J w' HJ. by apply wp_ret.
Qed.

End jacobian.

(** ** The shape and the zero blocks of the Jacobian *)

Section jacobian_structure.
Context `{C : Collaborators}.
Implicit Types (self : ErrorCalc Sensor) (ms : MultiSensor Sensor) (w : World).
Implicit Types (s : Sensor) (J : mat) (v opt : vec).

Lemma group_row_bound self w k r : group_row self w k r → r < total_length self w.
Proof.
  unfold group_row. pose proof (row_start_le_total self w (S k)). lia.
Qed.

Lemma group_row_unique self w k k' r :
  group_row self w k r → group_row self w k' r → k = k'.
Proof. apply partial_sums_disjoint. Qed.

Lemma sensor_row_group self ms w k j r :
  _multisensors self !! k = Some ms →
  sensor_row self ms w k j r → group_row self w k r.
Proof.
  intros Hk. unfold sensor_row, group_row. rewrite (row_start_S self w k ms Hk).
  pose proof (sensor_start_le_group ms w (S j)). lia.
Qed.

Lemma sensor_row_unique self ms w k j j' r :
  sensor_row self ms w k j r → sensor_row self ms w k j' r → j = j'.
Proof.
  unfold sensor_row, sensor_start. intros Hj Hj'.
  apply (partial_sums_disjoint
           ((λ s, sensor_get_residual_length s w) <$> sensors ms)
           j j' (r - row_start self w k)); lia.
Qed.

Lemma pose_col_bound self v k c :
  well_formed self v → k < length (_multisensors self) → pose_col self k c →
  c < length v.
Proof. unfold well_formed, pose_col. intros -> Hk Hc. lia. Qed.


(** C2. Under the same conditions, the Jacobian calculate_jacobian returns is
    zero at the rows of a group [j] and the six pose columns of another group
    [i]; more generally, in the rows of a group every entry outside the
    free-parameter columns and the group's own six pose columns is zero. *)
Theorem calculate_jacobian_pose_blocks self v w :
  contract self → masks_aligned self → well_formed self v →
  ∃ J w', calculate_jacobian self v w = (Ok J, w') ∧
    (∀ i j r c, i < length (_multisensors self) → i ≠ j →
       group_row self w j r → pose_col self i c →
       mget J r c = Some 0%float) ∧
    (∀ i r c, group_row self w i r → c < length v →
       ¬ c < py_sum_flags (_free_list self) → ¬ pose_col self i c →
       mget J r c = Some 0%float).
Proof.
  intros Hc Hmask Hwf.
  destruct (proj1 (wp_run _ _ _) (calculate_jacobian_block_sparse self v w Hc Hmask Hwf))
    as (J & w' & Hrun & Hshape & Hent).
  exists J, w'. split; [done|].
  assert (Hown : ∀ i r c, group_row self w i r → c < length v →
            ¬ c < py_sum_flags (_free_list self) → ¬ pose_col self i c →
            mget J r c = Some 0%float).
  { intros i r c Hrow Hcv Hfree Hpose.
    destruct (Hent r c (group_row_bound _ _ _ _ Hrow) Hcv)
      as (y & Hy & [->|(k & ms & Hk & Hrow' & Hcol)]); [done|].
    rewrite (group_row_unique self w i k r Hrow Hrow') in Hpose.
    destruct Hcol as [Hcol|[Hcol _]]; [by destruct Hpose|by destruct Hfree]. }
  split; [|done].
  intros i j r c Hi Hij Hrow Hcol. apply (Hown j); [done| | |].
  - by eapply pose_col_bound.
  - unfold pose_col in Hcol. lia.
  - unfold pose_col in *. lia.
Qed.

(** C3. Under the same conditions, in the rows of a sensor every
    free-parameter column the sensor's sparsity mask (the mask calc_free
    derives from the sensor's dictionary, read at the free positions) flags in
    no state of the model is zero in the Jacobian.  The block itself comes
    from single_sensor_params_jacobian, whose matrix is zero in every column
    that the mask, as it is when the kernel is called, does not flag. *)
Theorem calculate_jacobian_sparsity self v w :
  contract self → masks_aligned self → well_formed self v →
  (∃ J w', calculate_jacobian self v w = (Ok J, w') ∧
     ∀ k ms j s r c,
       _multisensors self !! k = Some ms → sensors ms !! j = Some s →
       sensor_row self ms w k j r → c < py_sum_flags (_free_list self) →
       ¬ flagged self s c → mget J r c = Some 0%float) ∧
  (∀ ms s opt (T : Transform) w0,
     ms ∈ _multisensors self → s ∈ sensors ms →
     length opt = py_sum_flags (_free_list self) →
     ∃ X w', single_sensor_params_jacobian self opt T (checkerboard ms) s w0
               = (Ok X, w') ∧
       ∀ r c, r < (shape X).1 → c < length opt →
         c ∉ np_where (opt_sparsity self s w0) → mget X r c = Some 0%float).
Proof.
  intros Hc Hmask Hwf. split.
  - destruct (proj1 (wp_run _ _ _)
                (calculate_jacobian_block_sparse self v w Hc Hmask Hwf))
      as (J & w' & Hrun & Hshape & Hent).
    exists J, w'. split; [done|].
    intros k ms j s r c Hk Hj Hrow Hcv Hflag.
    pose proof (sensor_row_group self ms w k j r Hk Hrow) as Hgrow.
    destruct (Hent r c (group_row_bound _ _ _ _ Hgrow))
      as (y & Hy & [->|(k' & ms' & Hk' & Hrow' & Hcol)]); [|done|].
    { unfold well_formed in Hwf. lia. }
    rewrite <- (group_row_unique self w k k' r Hgrow Hrow') in *.
    assert (ms' = ms) as -> by congruence.
    destruct Hcol as [Hcol|(_ & j' & s' & Hj' & Hsrow & Hfl)].
    { unfold pose_col in Hcol. lia. }
    rewrite <- (sensor_row_unique self ms w k j j' r Hrow Hsrow) in *.
    assert (s' = s) as -> by congruence. by destruct Hflag.
  - intros ms s opt T w0 Hms Hs Hopt. eexists _, _.
    split; [by eapply single_sensor_params_jacobian_run|].
    unfold params_jacobian. cbn [fst snd].
    change (np_transpose ?m) with
      (transposed_rows (length opt)
         (length (sensor_residual s T (checkerboard ms) (sensor_world self s opt w0)))
         (np_where (opt_sparsity self s w0))
         (params_quotients self opt
            (sensor_residual s T (checkerboard ms) (sensor_world self s opt w0))
            T (checkerboard ms) s (np_where (opt_sparsity self s w0))
            (sensor_world self s opt w0)).1).
    rewrite shape_transposed_rows. simpl.
    intros r c Hr Hcv Hidx. by apply transposed_rows_zero.
Qed.

End jacobian_structure.

(** ** The sparsity dictionary's missing categories *)

Section missing_categories.
Context `{C : Collaborators}.
Implicit Types (self : ErrorCalc Sensor) (ms : MultiSensor Sensor) (w : World).


End missing_categories.

(** ** The concrete model keeps the contract *)

Lemma demo_groups (ms : MultiSensor nat) :
  ms ∈ _multisensors demo_calc → ms = demo_ms 0 ∨ ms = demo_ms 2.
Proof.
  simpl. intros [->|Hin]%elem_of_cons; [by left|].
  apply elem_of_cons in Hin as [->|Hin]; [by right|].
  by apply elem_of_nil in Hin.
Qed.

Lemma demo_contract : contract (C := demo) demo_calc.
Proof.
  split.
  - simpl. lia.
  - intros w ms [->| ->]%demo_groups; by eexists.
  - intros ms s _ _ w w' pts. reflexivity.
Qed.

Lemma demo_masks_aligned : masks_aligned (C := demo) demo_calc.
Proof.
  intros w d Hkeys. exists (demo_calc_free d). split; [|simpl; lia].
  simpl. rewrite decide_True; [done|]. by apply Forall_forall.
Qed.

Lemma demo_rederived : rederived (C := demo) demo_calc.
Proof. intros full w1 w2 ms _. split; [reflexivity|]. intros s pts _. reflexivity. Qed.


(** ** The concrete model, run *)

Example calculate_error_demo :
  calculate_error (C := demo) demo_calc demo_vec demo_world
  = (Ok [12; 22; 33; 62]%float, [11; 20; 31]%float).
Proof. by vm_compute. Qed.

(** Two groups of one sensor with two residuals, no free parameter: the
    optimization vector has twelve entries, the Jacobian is 4 by 12, the pose
    columns of the first group are zero in rows 2 and 3 and those of the second
    in rows 0 and 1. *)
Example two_groups_no_free_parameter :
  let fixed := {| _expanded_params := demo_world;
                  _free_list := [false; false; false];
                  _multisensors := [demo_ms 0; demo_ms 2] |} in
  ∃ J w',
    calculate_jacobian (C := demo) fixed
      [0; 0; 0; 0; 0; 0; 1; 0; 0; 0; 0; 0]%float demo_world = (Ok J, w') ∧
    shape J = (4, 12) ∧
    Forall (λ rc, mget J rc.1 rc.2 = Some 0%float)
           (r ← [2; 3]; c ← seq 0 6; [(r, c)]) ∧
    Forall (λ rc, mget J rc.1 rc.2 = Some 0%float)
           (r ← [0; 1]; c ← seq 6 6; [(r, c)]) ∧
    mget J 0 0 ≠ Some 0%float ∧ mget J 3 7 ≠ Some 0%float.
Proof.
  eexists _, _. split; [by vm_compute|]. split; [done|].
  split; [by repeat constructor|]. split; [by repeat constructor|].
  split; by vm_compute.
Qed.

(** ** The statements at the concrete model *)

Lemma calculate_full_param_vec_spec_demo :
  ∃ full,
    calculate_full_param_vec demo_calc [11; 31]%float = Ok full ∧
    length full = length (_expanded_params demo_calc) ∧
    (∀ p, _free_list demo_calc !! p ≠ Some true →
          full !! p = _expanded_params demo_calc !! p) ∧
    np_take full (np_where (_free_list demo_calc)) = Ok [11; 31]%float ∧
    (∀ v p, np_take v (np_where (_free_list demo_calc)) = Ok [11; 31]%float →
            _free_list demo_calc !! p = Some true → full !! p = v !! p).
Proof.
  apply (calculate_full_param_vec_spec demo_calc [11; 31]%float).
  - reflexivity.
  - simpl. lia.
Defined.

Lemma calculate_error_layout_demo :
  well_formed demo_calc demo_vec ∧
  ∃ r w' blocks,
    calculate_error (C := demo) demo_calc demo_vec demo_world = (Ok r, w') ∧
    r = concat blocks ∧
    Forall2 (λ p block, ∃ pts,
               target_points (C := demo) p.1 p.2 w' = Ok pts ∧
               block = concat (sensor_residuals (C := demo) p.1 w' pts))
            (zip (_multisensors demo_calc)
                 (rows_of (length (_multisensors demo_calc))
                          (pose_block demo_calc demo_vec)))
            blocks ∧
    ∀ w0, length r = total_length (C := demo) demo_calc w0.
Proof.
  split; [reflexivity|].
  apply (calculate_error_layout (C := demo) demo_calc demo_vec demo_world).
  - apply demo_contract.
  - reflexivity.
  - discriminate.
Defined.

Lemma calculate_error_idempotent_demo :
  (∀ w2, (calculate_error (C := demo) demo_calc demo_vec w2).1
         = (calculate_error (C := demo) demo_calc demo_vec demo_world).1) ∧
  (calculate_error (C := demo) demo_calc demo_vec
     (calculate_error (C := demo) demo_calc demo_vec demo_world).2).1
  = (calculate_error (C := demo) demo_calc demo_vec demo_world).1.
Proof.
  apply (calculate_error_idempotent (C := demo) demo_calc demo_vec demo_world).
  apply demo_rederived.
Defined.


Lemma calculate_jacobian_pose_blocks_demo :
  well_formed demo_calc demo_vec ∧
  ∃ J w', calculate_jacobian (C := demo) demo_calc demo_vec demo_world = (Ok J, w') ∧
    (∀ i j r c, i < length (_multisensors demo_calc) → i ≠ j →
       group_row (C := demo) demo_calc demo_world j r → pose_col (C := demo) demo_calc i c →
       mget J r c = Some 0%float) ∧
    (∀ i r c, group_row (C := demo) demo_calc demo_world i r →
       c < length demo_vec →
       ¬ c < py_sum_flags (_free_list demo_calc) → ¬ pose_col (C := demo) demo_calc i c →
       mget J r c = Some 0%float).
Proof.
  split; [reflexivity|].
  apply (calculate_jacobian_pose_blocks (C := demo) demo_calc demo_vec demo_world).
  - apply demo_contract.
  - apply demo_masks_aligned.
  - reflexivity.
Defined.

Lemma calculate_jacobian_sparsity_demo :
  well_formed demo_calc demo_vec ∧
  (∃ J w', calculate_jacobian (C := demo) demo_calc demo_vec demo_world = (Ok J, w') ∧
     ∀ k ms j s r c,
       _multisensors demo_calc !! k = Some ms → sensors ms !! j = Some s →
       sensor_row (C := demo) demo_calc ms demo_world k j r →
       c < py_sum_flags (_free_list demo_calc) →
       ¬ flagged (C := demo) demo_calc s c → mget J r c = Some 0%float) ∧
  (∀ ms s opt (T : vec) w0,
     ms ∈ _multisensors demo_calc → s ∈ sensors ms →
     length opt = py_sum_flags (_free_list demo_calc) →
     ∃ X w', single_sensor_params_jacobian (C := demo) demo_calc opt T
               (checkerboard ms) s w0 = (Ok X, w') ∧
       ∀ r c, r < (shape X).1 → c < length opt →
         c ∉ np_where (opt_sparsity (C := demo) demo_calc s w0) →
         mget X r c = Some 0%float).
Proof.
  split; [reflexivity|].
  apply (calculate_jacobian_sparsity (C := demo) demo_calc demo_vec demo_world).
  - apply demo_contract.
  - apply demo_masks_aligned.
  - reflexivity.
Defined.

#[warnings="-inexact-float"]
Lemma forward_difference_kernels_demo :
  contract (C := demo) demo_calc ∧ masks_aligned (C := demo) demo_calc ∧
  epsilon = 1e-6%float ∧
  (∀ v opt' poses, split_all demo_calc v = Ok (opt', poses) →
     Forall (λ x0, length x0 = 6) poses) ∧
  (let pose := [0; 0; 0; 0; 0; 0]%float in
   let w1 := refresh_sensors (C := demo) (sensors (demo_ms 0))
               (rp_inflate (Collaborators := demo)
                  (expand (C := demo) demo_calc [11; 31]%float) demo_world) in
   let f := pose_residual (C := demo) (demo_ms 0) w1 in
   ∃ J, multisensor_pose_jacobian (C := demo) demo_calc [11; 31]%float pose
          (demo_ms 0) demo_world = (Ok J, w1) ∧
        shape J = (length (f pose), length pose) ∧
        ∀ i r fi f0r, i < length pose →
          f (perturbed pose i) !! r = Some fi → f pose !! r = Some f0r →
          mget J r i = Some (PrimFloat.div (PrimFloat.sub fi f0r) epsilon)) ∧
  (let T := [0; 0; 0; 0; 0; 0]%float in
   let idx := np_where (opt_sparsity (C := demo) demo_calc 0 demo_world) in
   let w1 := sensor_world (C := demo) demo_calc 0 [11; 31]%float demo_world in
   let f0 := sensor_residual (C := demo) 0 T (checkerboard (demo_ms 0)) w1 in
   let worlds := params_worlds (C := demo) demo_calc [11; 31]%float 0 idx w1 in
   ∃ J, single_sensor_params_jacobian (C := demo) demo_calc [11; 31]%float T
          (checkerboard (demo_ms 0)) 0 demo_world
          = (Ok J, default w1 (last worlds)) ∧
        shape J = (length f0, 2) ∧
        (∀ k i wk r fi f0r, idx !! k = Some i → worlds !! k = Some wk →
           sensor_residual (C := demo) 0 T (checkerboard (demo_ms 0)) wk !! r
             = Some fi →
           f0 !! r = Some f0r →
           mget J r i = Some (PrimFloat.div (PrimFloat.sub fi f0r) epsilon)) ∧
        (∀ c r, c < 2 → c ∉ idx → r < length f0 →
           mget J r c = Some 0%float)).
Proof.
  split; [apply demo_contract|]. split; [apply demo_masks_aligned|].
  apply (forward_difference_kernels (C := demo) demo_calc [11; 31]%float
           [0; 0; 0; 0; 0; 0]%float (demo_ms 0) 0 [0; 0; 0; 0; 0; 0]%float
           demo_world).
  - apply demo_contract.
  - apply demo_masks_aligned.
  - simpl. apply list_elem_of_here.
  - simpl. apply list_elem_of_here.
  - reflexivity.
Defined.


(** * Further properties of the engine *)

(** ** Splitting and expanding *)

Section splitting.
Context {S : Type}.
Implicit Types (self : ErrorCalc S) (v opt : vec) (poses : list vec).

Lemma concat_rows_of k v : length v = 6 * k → concat (rows_of k v) = v.
Proof.
  revert v. induction k as [|k IH]; intros v Hv; simpl.
  - destruct v; [done|simpl in Hv; lia].
  - rewrite IH by (rewrite length_drop; lia). apply take_drop.
Qed.

Lemma rows_of_app k j (a b : vec) :
  length a = 6 * k → rows_of (k + j) (a ++ b) = rows_of k a ++ rows_of j b.
Proof.
  revert a. induction k as [|k IH]; intros a Ha; simpl.
  - by destruct a; [|simpl in Ha; lia].
  - rewrite take_app_le, drop_app_le by lia.
    rewrite IH by (rewrite length_drop; lia). done.
Qed.

(** X1. split_all loses nothing and invents nothing: when it returns, the
    free-parameter part followed by the pose rows, flattened, is the vector it
    was given; the first part has as many entries as there are free parameters
    (fewer when the vector is shorter), and each pose row takes six entries of
    the rest. *)
Theorem split_all_lossless self v opt poses :
  split_all self v = Ok (opt, poses) →
  opt ++ concat poses = v ∧
  length opt = py_sum_flags (_free_list self) `min` length v ∧
  6 * length poses = length (pose_block self v).
Proof.
  unfold split_all, np_reshape_6. fold (pose_block self v).
  destruct (decide _) as [Hmod|]; [|done]. intros [= <- <-].
  apply Nat.Div0.div_exact in Hmod.
  rewrite concat_rows_of by done. unfold pose_block. rewrite take_drop.
  split; [done|]. split; [by rewrite length_take|].
  by rewrite length_rows_of.
Qed.

Lemma np_put_wrong_length (a : vec) mask opt :
  length opt ≠ py_sum_flags mask → length opt ≠ 1 →
  np_put a (np_where mask) opt = Raise ValueError.
Proof.
  intros Hlen Hone. unfold np_put, broadcast_1d.
  rewrite decide_False by (by rewrite length_np_where).
  by destruct opt as [|x [|y opt]].
Qed.

(** X2. calculate_full_param_vec refuses a subset of the wrong length: unless
    it has exactly one entry per free parameter, or a single entry, the
    assignment through the free mask raises ValueError. *)
Theorem calculate_full_param_vec_wrong_length self opt :
  length opt ≠ py_sum_flags (_free_list self) → length opt ≠ 1 →
  calculate_full_param_vec self opt = Raise ValueError.
Proof. apply np_put_wrong_length. Qed.

(** X3. A subset of a single entry is accepted whatever the number of free
    parameters: numpy repeats it, so every free position of the expanded vector
    carries that entry and every other position keeps the cached value. *)
Theorem calculate_full_param_vec_single self (x : float) :
  length (_free_list self) ≤ length (_expanded_params self) →
  ∃ full,
    calculate_full_param_vec self [x] = Ok full ∧
    length full = length (_expanded_params self) ∧
    (∀ p, _free_list self !! p = Some true → full !! p = Some x) ∧
    (∀ p, _free_list self !! p ≠ Some true →
          full !! p = _expanded_params self !! p).
Proof.
  intros Hmask. set (idx := np_where (_free_list self)).
  assert (Hbc : broadcast_1d (length idx) [x] = Ok (replicate (length idx) x)).
  { unfold broadcast_1d. destruct (decide _) as [Hone|]; [|done].
    simpl in Hone. by rewrite <- Hone. }
  unfold calculate_full_param_vec, np_put. fold idx. rewrite Hbc. simpl.
  rewrite decide_True; last first.
  { eapply Forall_impl; [apply np_where_bound|]. simpl. lia. }
  eexists. split; [done|]. split; [apply length_scatter|]. split.
  - intros p Hp. pose proof Hp as Hin%elem_of_np_where.
    apply list_elem_of_lookup in Hin as [k Hk].
    rewrite (scatter_lookup_in _ _ _ k); [|apply NoDup_np_where| |done|].
    + apply lookup_replicate_2. by eapply lookup_lt_Some.
    + apply lookup_lt_Some in Hp. lia.
    + rewrite length_replicate. by eapply lookup_lt_Some.
  - intros p Hp. apply scatter_lookup_notin. unfold idx.
    by rewrite elem_of_np_where.
Qed.

End splitting.

Lemma split_all_lossless_demo :
  [11; 31]%float ++ concat [[0; 0; 0; 0; 0; 0]; [1; 0; 0; 0; 0; 0]]%float = demo_vec ∧
  length [11; 31]%float = py_sum_flags (_free_list demo_calc) `min` length demo_vec ∧
  6 * length [[0; 0; 0; 0; 0; 0]; [1; 0; 0; 0; 0; 0]]%float
  = length (pose_block demo_calc demo_vec).
Proof.
  apply (split_all_lossless demo_calc demo_vec [11; 31]%float
           [[0; 0; 0; 0; 0; 0]; [1; 0; 0; 0; 0; 0]]%float).
  reflexivity.
Defined.

Lemma calculate_full_param_vec_wrong_length_demo :
  calculate_full_param_vec demo_calc [1; 2; 3]%float = Raise ValueError.
Proof.
  apply (calculate_full_param_vec_wrong_length demo_calc [1; 2; 3]%float);
    simpl; lia.
Defined.

Lemma calculate_full_param_vec_single_demo :
  ∃ full,
    calculate_full_param_vec demo_calc [7]%float = Ok full ∧
    length full = length (_expanded_params demo_calc) ∧
    (∀ p, _free_list demo_calc !! p = Some true → full !! p = Some 7%float) ∧
    (∀ p, _free_list demo_calc !! p ≠ Some true →
          full !! p = _expanded_params demo_calc !! p).
Proof.
  apply (calculate_full_param_vec_single demo_calc 7%float). simpl. lia.
Defined.

(** ** Construction, degenerate inputs and what the residual ignores *)

Section edge_cases.
Context `{C : Collaborators}.
Implicit Types (self : ErrorCalc Sensor) (ms : MultiSensor Sensor) (w : World).
Implicit Types (v opt full : vec) (poses : list vec).

Lemma scatter_same {A} (a : list A) idx vals :
  Forall2 (λ i x, a !! i = Some x) idx vals → scatter a idx vals = a.
Proof.
  unfold scatter. induction 1 as [|i x idx vals Hi _ IH]; [done|]. simpl.
  by rewrite list_insert_id.
Qed.

Lemma zip_app_longer {A B} (l : list A) (k k' : list B) :
  length l = length k → zip l (k ++ k') = zip l k.
Proof.
  revert k. induction l as [|x l IH]; intros [|y k] Hlen; simpl in *;
    try done. by rewrite IH by lia.
Qed.

Lemma collect_raise {A B} (f : A → result B) (xs : list A) (x : A) (E : exn) :
  (∀ y e, f y = Raise e → e = E) → x ∈ xs → f x = Raise E →
  collect f xs = Raise E.
Proof.
  intros Honly Hin Hx. induction xs as [|y xs IH]; [by apply elem_of_nil in Hin|].
  simpl. destruct (f y) as [b|e] eqn:Hy.
  - apply elem_of_cons in Hin as [->|Hin]; [congruence|].
    by rewrite IH.
  - by rewrite (Honly y e Hy).
Qed.

Lemma split_all_short self v :
  length v ≤ py_sum_flags (_free_list self) → split_all self v = Ok (v, []).
Proof.
  intros Hlen. unfold split_all. by rewrite take_ge, drop_ge by done.
Qed.

Lemma split_all_app self v extra j :
  well_formed self v → length extra = 6 * j →
  split_all self (v ++ extra)
  = Ok (take (py_sum_flags (_free_list self)) v,
        rows_of (length (_multisensors self)) (pose_block self v)
          ++ rows_of j extra).
Proof.
  intros Hwf Hextra. pose proof (length_pose_block self v Hwf) as Hpb.
  unfold well_formed in Hwf. unfold split_all, np_reshape_6.
  rewrite take_app_le, drop_app_le by lia. fold (pose_block self v).
  rewrite length_app, Hpb, Hextra.
  replace (6 * length (_multisensors self) + 6 * j)
    with ((length (_multisensors self) + j) * 6) by lia.
  rewrite Nat.Div0.mod_mul, Nat.div_mul by lia. rewrite decide_True by done.
  simpl. by rewrite rows_of_app.
Qed.

(** X4. Building the engine reads the model and leaves it as it is, and the
    driver's initial guess round-trips: the entries of the deflated vector at
    the free positions, expanded by the engine, give the deflated vector back,
    entry for entry. *)
Theorem initial_guess_expands_to_baseline
    (free_dict : gmap string (gmap string PrimSpec))
    (multisensors : list (MultiSensor Sensor)) w (error_calc : ErrorCalc Sensor)
    w' opt :
  ErrorCalc_init free_dict multisensors w = (Ok error_calc, w') →
  np_take (rp_deflate w) (np_where (_free_list error_calc)) = Ok opt →
  w' = w ∧ _multisensors error_calc = multisensors ∧
  _expanded_params error_calc = rp_deflate w ∧
  calculate_full_param_vec error_calc opt = Ok (rp_deflate w).
Proof.
  unfold ErrorCalc_init, mbind, M_bind, gets, calc_free, mret, M_ret.
  destruct (rp_calc_free w free_dict) as [free_list|e]; [|done].
  intros [= <- <-]. simpl. intros Htake%np_take_Ok.
  split; [done|]. split; [done|]. split; [done|].
  unfold calculate_full_param_vec, np_put. simpl.
  rewrite broadcast_1d_exact by (symmetry; by eapply Forall2_length). simpl.
  rewrite decide_True; [by rewrite scatter_same|].
  apply Forall_forall. intros i Hi.
  apply list_elem_of_lookup in Hi as [k Hk].
  destruct (Forall2_lookup_l _ _ _ _ _ Htake Hk) as (x & _ & Hx).
  by eapply lookup_lt_Some.
Qed.

(** X5. With no observation group the two callbacks disagree: calculate_error
    never returns (numpy.concatenate refuses the empty list of residuals, and
    by then the model has been inflated with the vector's parameters), while
    calculate_jacobian returns a matrix with no row and one column per entry
    of the vector, and leaves the model alone. *)
Theorem no_observation_group self v w :
  _multisensors self = [] →
  (∃ e w', calculate_error self v w = (Raise e, w')) ∧
  (∀ opt poses full,
     split_all self v = Ok (opt, poses) →
     calculate_full_param_vec self opt = Ok full →
     calculate_error self v w = (Raise ValueError, rp_inflate full w)) ∧
  (length (pose_block self v) `mod` 6 = 0 →
     calculate_jacobian self v w = (Ok (Mat [] (length v)), w)).
Proof.
  intros Hnone.
  assert (Hrun : ∀ opt poses full,
            split_all self v = Ok (opt, poses) →
            calculate_full_param_vec self opt = Ok full →
            calculate_error self v w = (Raise ValueError, rp_inflate full w)).
  { intros opt poses full Hsplit Hfull.
    rewrite calculate_error_unfold, Hsplit, Hfull.
    unfold updated_world. by rewrite Hnone. }
  split; [|split; [done|]].
  - destruct (split_all self v) as [[opt poses]|e] eqn:Hsplit.
    + destruct (calculate_full_param_vec self opt) as [full|e] eqn:Hfull.
      * eexists _, _. by eapply Hrun.
      * rewrite calculate_error_unfold, Hsplit, Hfull. by eauto.
    + rewrite calculate_error_unfold, Hsplit. by eauto.
  - intros Hmod. unfold calculate_jacobian, split_all, np_reshape_6.
    fold (pose_block self v). rewrite decide_True by done.
    by rewrite Hnone.
Qed.

(** X6. calculate_error does not look past the pose of the last group: pose
    6-vectors appended to a vector of the expected layout change neither the
    residual nor the world the call leaves. *)
Theorem trailing_pose_blocks_ignored self v extra w :
  well_formed self v → length extra `mod` 6 = 0 →
  calculate_error self (v ++ extra) w = calculate_error self v w.
Proof.
  intros Hwf Hmod. apply Nat.Div0.div_exact in Hmod.
  rewrite !calculate_error_unfold.
  rewrite (split_all_app self v extra _ Hwf Hmod), split_all_well_formed by done.
  destruct (calculate_full_param_vec self _) as [full|e]; [|done].
  by rewrite zip_app_longer by (by rewrite length_rows_of).
Qed.

(** X8. A group whose target the inflated model does not know makes
    calculate_error raise KeyError, whichever group it is; the world it leaves
    is the one with the model inflated and every group refreshed, not the one
    it was called in. *)
Theorem unknown_target_raises self v w opt poses full ms (pose : vec) :
  split_all self v = Ok (opt, poses) →
  calculate_full_param_vec self opt = Ok full →
  (ms, pose) ∈ zip (_multisensors self) poses →
  rp_checkerboards (updated_world self full w) !! checkerboard ms = None →
  calculate_error self v w = (Raise KeyError, updated_world self full w).
Proof.
  intros Hsplit Hfull Hin Hcb. rewrite calculate_error_unfold, Hsplit, Hfull.
  cbn zeta.
  rewrite (collect_raise _ _ (ms, pose) KeyError); [done| |done|].
  - intros [ms' pose'] e. unfold group_residual, target_points. simpl.
    destruct (rp_checkerboards _ !! checkerboard ms'); [done|].
    simpl. by intros [= <-].
  - unfold group_residual, target_points. simpl. by rewrite Hcb.
Qed.

(** X12. A vector with fewer entries than there are free parameters (and more
    than one, or none) is not padded: calculate_error raises ValueError when
    it expands the parameters, calculate_jacobian raises IndexError when it
    reads the pose of the first group, and in both the model has not been
    touched. *)
Theorem short_vector_raises self v w :
  length v < py_sum_flags (_free_list self) → length v ≠ 1 →
  calculate_error self v w = (Raise ValueError, w) ∧
  (_multisensors self ≠ [] →
   calculate_jacobian self v w = (Raise IndexError, w)).
Proof.
  intros Hlen Hone. split.
  - rewrite calculate_error_unfold, split_all_short by lia.
    unfold calculate_full_param_vec.
    by rewrite np_put_wrong_length by lia.
  - intros Hgroups. unfold calculate_jacobian, mbind at 1 2, M_bind, lift.
    rewrite split_all_short by lia. cbn beta iota.
    unfold ms_get_residual_length. rewrite map_M_gets.
    destruct (_multisensors self) as [|ms groups]; [done|].
    cbn [length seq zip zip_with fmap list_fmap].
    unfold mbind, M_bind. rewrite fold_M_cons.
    unfold jacobian_group_step, mbind, M_bind, lift.
    cbn [starts_of np_cumsum cumsum_from py_index lookup list_lookup].
    by rewrite map_M_gets.
Qed.

End edge_cases.

Lemma initial_guess_expands_to_baseline_demo :
  demo_world = demo_world ∧ _multisensors demo_calc = [demo_ms 0; demo_ms 2] ∧
  _expanded_params demo_calc = rp_deflate (Collaborators := demo) demo_world ∧
  calculate_full_param_vec demo_calc [10; 30]%float
  = Ok (rp_deflate (Collaborators := demo) demo_world).
Proof.
  apply (initial_guess_expands_to_baseline (C := demo) demo_free_dict
           [demo_ms 0; demo_ms 2] demo_world demo_calc demo_world [10; 30]%float).
  - by vm_compute.
  - by vm_compute.
Defined.

Lemma no_observation_group_demo :
  (∃ e w', calculate_error (C := demo) demo_no_group [11; 31]%float demo_world
           = (Raise e, w')) ∧
  (∀ opt poses full,
     split_all demo_no_group [11; 31]%float = Ok (opt, poses) →
     calculate_full_param_vec demo_no_group opt = Ok full →
     calculate_error (C := demo) demo_no_group [11; 31]%float demo_world
     = (Raise ValueError, rp_inflate (Collaborators := demo) full demo_world)) ∧
  (length (pose_block demo_no_group [11; 31]%float) `mod` 6 = 0 →
     calculate_jacobian (C := demo) demo_no_group [11; 31]%float demo_world
     = (Ok (Mat [] 2), demo_world)).
Proof.
  apply (no_observation_group (C := demo) demo_no_group [11; 31]%float demo_world).
  reflexivity.
Defined.

Lemma trailing_pose_blocks_ignored_demo :
  calculate_error (C := demo) demo_calc (demo_vec ++ [5; 5; 5; 5; 5; 5]%float)
    demo_world
  = calculate_error (C := demo) demo_calc demo_vec demo_world.
Proof.
  apply (trailing_pose_blocks_ignored (C := demo) demo_calc demo_vec
           [5; 5; 5; 5; 5; 5]%float demo_world); reflexivity.
Defined.

Lemma unknown_target_raises_demo :
  calculate_error (C := demo) demo_lost_target [11; 31; 0; 0; 0; 0; 0; 0]%float
    demo_world
  = (Raise KeyError, [11; 20; 31]%float).
Proof.
  apply (unknown_target_raises (C := demo) demo_lost_target
           [11; 31; 0; 0; 0; 0; 0; 0]%float demo_world [11; 31]%float
           [[0; 0; 0; 0; 0; 0]%float] [11; 20; 31]%float
           {| sensors := [0]; checkerboard := "lost" |} [0; 0; 0; 0; 0; 0]%float).
  - reflexivity.
  - reflexivity.
  - apply list_elem_of_here.
  - reflexivity.
Defined.

Lemma short_vector_raises_demo :
  calculate_error (C := demo) demo_calc [] demo_world = (Raise ValueError, demo_world) ∧
  (_multisensors demo_calc ≠ [] →
   calculate_jacobian (C := demo) demo_calc [] demo_world
   = (Raise IndexError, demo_world)).
Proof.
  apply (short_vector_raises (C := demo) demo_calc [] demo_world); simpl; lia.
Defined.

(** ** The residual and the Jacobian, side by side *)

Section callbacks.
Context `{C : Collaborators}.
Implicit Types (self : ErrorCalc Sensor) (ms : MultiSensor Sensor) (w : World).
Implicit Types (v opt full : vec) (poses : list vec).

Lemma fst_zip_take {A B} (l : list A) (k : list B) :
  (zip l k).*1 = take (length k) l.
Proof.
  revert k. induction l as [|x l IH]; intros [|y k]; simpl; try done.
  by rewrite IH.
Qed.

(** calculate_error on the groups that have a pose: the residual is one block
    per pair, and its length is the declared length of the paired groups. *)
Lemma calculate_error_paired self v w opt poses :
  contract self →
  split_all self v = Ok (opt, poses) →
  length opt = py_sum_flags (_free_list self) →
  zip (_multisensors self) poses ≠ [] →
  let w' := updated_world self (expand self opt) w in
  ∃ blocks,
    calculate_error self v w = (Ok (concat blocks), w') ∧
    Forall2 (λ p block, ∃ pts,
               target_points p.1 (SingleTransform_transform p.2) w' = Ok pts ∧
               block = concat (sensor_residuals p.1 w' pts))
            (zip (_multisensors self) poses) blocks ∧
    ∀ w0, length (concat blocks)
          = py_sum ((λ ms, group_length ms w0)
                      <$> take (length poses) (_multisensors self)).
Proof.
  intros Hc Hsplit Hopt Hpairs w'.
  rewrite calculate_error_unfold, Hsplit.
  rewrite calculate_full_param_vec_defined by (done || apply Hc).
  fold (expand self opt). cbn zeta. fold w'.
  destruct (collect_defined (λ p, group_residual p.1 p.2 w')
              (zip (_multisensors self) poses)) as [blocks Hblocks].
  { intros [ms pose] Hin%elem_of_zip_l. simpl in *.
    unfold group_residual, target_points.
    destruct (target_known _ Hc w' ms Hin) as [cb ->]. by eexists. }
  rewrite Hblocks. apply collect_Ok in Hblocks.
  assert (Hshape : Forall2 (λ p block, ∃ pts,
            target_points p.1 (SingleTransform_transform p.2) w' = Ok pts ∧
            block = concat (sensor_residuals p.1 w' pts))
            (zip (_multisensors self) poses) blocks).
  { eapply Forall2_impl; [done|]. intros [ms pose] block. simpl.
    unfold group_residual. destruct (target_points _ _ _) as [pts|]; [|done].
    intros [= <-]. by exists pts. }
  exists blocks. split.
  { destruct blocks; [|done]. apply Forall2_nil_inv_r in Hblocks. done. }
  split; [done|].
  intros w0. rewrite length_concat_py_sum, <- fst_zip_take. f_equal.
  rewrite <- list_fmap_compose.
  apply list_eq_same_length with (length blocks);
    [rewrite length_fmap; by eapply Forall2_length
    |by rewrite length_fmap|].
  intros i n1 n2 Hi. rewrite !list_lookup_fmap.
  destruct (lookup_lt_is_Some_2 blocks i Hi) as [block Hb]. rewrite Hb.
  destruct (Forall2_lookup_r _ _ _ _ _ Hshape Hb) as ([ms pose] & Hz & pts & _ & ->).
  rewrite Hz. simpl. intros [= <-] [= <-].
  eapply length_sensor_residuals; [done|].
  apply lookup_zip_with_Some in Hz as (ms' & pose' & [= <- <-] & Hms & _).
  by eapply list_elem_of_lookup_2.
Qed.

(** X7. When the vector carries a different number of pose 6-vectors than
    there are groups, calculate_error still returns: groups and poses are
    paired in order until either runs out, and the residual is the
    concatenation, in that order, of one block per pair, each block being the
    residuals of the group's sensors on its target under the paired pose, read
    from the updated model.  A group without a pose and a pose without a group
    contribute nothing, so the residual's length is the declared length of the
    paired groups only. *)
Theorem calculate_error_pairs_groups_and_poses self v w :
  contract self →
  py_sum_flags (_free_list self) ≤ length v →
  length (pose_block self v) `mod` 6 = 0 → 6 ≤ length (pose_block self v) →
  _multisensors self ≠ [] →
  let poses := rows_of (length (pose_block self v) `div` 6) (pose_block self v) in
  let w' := updated_world self
              (expand self (take (py_sum_flags (_free_list self)) v)) w in
  ∃ blocks,
    calculate_error self v w = (Ok (concat blocks), w') ∧
    Forall2 (λ p block, ∃ pts,
               target_points p.1 (SingleTransform_transform p.2) w' = Ok pts ∧
               block = concat (sensor_residuals p.1 w' pts))
            (zip (_multisensors self) poses) blocks ∧
    length blocks
    = length (_multisensors self) `min` (length (pose_block self v) `div` 6) ∧
    ∀ w0, length (concat blocks)
          = py_sum ((λ ms, group_length ms w0)
                      <$> take (length (pose_block self v) `div` 6)
                               (_multisensors self)).
Proof.
  intros Hc Hlen Hmod Hsix Hgroups poses w'.
  assert (Hposes : length poses = length (pose_block self v) `div` 6)
    by apply length_rows_of.
  assert (Hsplit : split_all self v
                   = Ok (take (py_sum_flags (_free_list self)) v, poses)).
  { unfold split_all, np_reshape_6. fold (pose_block self v).
    by rewrite decide_True. }
  destruct (calculate_error_paired self v w _ poses Hc Hsplit)
    as (blocks & Hrun & Hshape & Hsum).
  - rewrite length_take. lia.
  - assert (0 < length poses).
    { rewrite Hposes. apply Nat.div_str_pos. lia. }
    destruct (_multisensors self), poses; simpl in *; done || lia.
  - exists blocks. split; [done|]. split; [done|].
    split; [|by rewrite <- Hposes].
    apply Forall2_length in Hshape. rewrite length_zip in Hshape. lia.
Qed.



(** X11. What opt_runner raises once calc_free and the extraction of the
    initial guess went through: AssertionError when the pose guesses are not
    six columns wide or not one row per group, and the NameError of [reshape]
    otherwise.  Either way the solver was not called and the world is the one
    configure left. *)
Theorem opt_runner_outcome (d : ParamsDict) (pose_guess_arr : mat)
    (free_dict : gmap string (gmap string PrimSpec))
    (multisensors : list (MultiSensor Sensor)) w (free_list : list bool) opt :
  rp_calc_free (rp_configure d w) free_dict = Ok free_list →
  np_take (rp_deflate (rp_configure d w)) (np_where free_list) = Ok opt →
  opt_runner d pose_guess_arr free_dict multisensors w
  = (Raise (if decide (mcols pose_guess_arr = 6 ∧
                       length (mrows pose_guess_arr) = length multisensors)
            then NameError "reshape" else AssertionError),
     rp_configure d w).
Proof.
  intros Hfree Htake.
  unfold opt_runner, ErrorCalc_init, mbind, M_bind, lift, gets, modify, mret, M_ret,
    calc_free.
  rewrite Hfree. cbv beta iota. rewrite Hfree, Htake. unfold py_assert.
  destruct (decide (mcols pose_guess_arr = 6)) as [H6|H6].
  - destruct (decide (length (mrows pose_guess_arr) = length multisensors))
      as [Hn|Hn].
    + by rewrite decide_True, reshape_unbound.
    + by rewrite decide_False by (by intros [_ ?]).
  - by rewrite decide_False by (by intros [? _]).
Qed.

End callbacks.

Lemma calculate_error_pairs_groups_and_poses_demo :
  let poses := rows_of (length (pose_block demo_calc demo_short_vec) `div` 6)
                 (pose_block demo_calc demo_short_vec) in
  let w' := updated_world (C := demo) demo_calc
              (expand (C := demo) demo_calc
                 (take (py_sum_flags (_free_list demo_calc)) demo_short_vec))
              demo_world in
  ∃ blocks,
    calculate_error (C := demo) demo_calc demo_short_vec demo_world
    = (Ok (concat blocks), w') ∧
    Forall2 (λ p block, ∃ pts,
               target_points (C := demo) p.1 (SingleTransform_transform p.2) w'
               = Ok pts ∧
               block = concat (sensor_residuals (C := demo) p.1 w' pts))
            (zip (_multisensors demo_calc) poses) blocks ∧
    length blocks
    = length (_multisensors demo_calc)
        `min` (length (pose_block demo_calc demo_short_vec) `div` 6) ∧
    ∀ w0, length (concat blocks)
          = py_sum ((λ ms, group_length (C := demo) ms w0)
                      <$> take (length (pose_block demo_calc demo_short_vec) `div` 6)
                               (_multisensors demo_calc)).
Proof.
  apply (calculate_error_pairs_groups_and_poses (C := demo) demo_calc
           demo_short_vec demo_world).
  - apply demo_contract.
  - simpl. lia.
  - reflexivity.
  - simpl. lia.
  - discriminate.
Defined.



Lemma opt_runner_outcome_demo :
  opt_runner (C := demo) demo_world (Mat [[0; 0; 0; 0; 0; 0]]%float 6)
    demo_free_dict [demo_ms 0; demo_ms 2] demo_world
  = (Raise AssertionError, demo_world).
Proof.
  apply (opt_runner_outcome (C := demo) demo_world (Mat [[0; 0; 0; 0; 0; 0]]%float 6)
           demo_free_dict [demo_ms 0; demo_ms 2] demo_world
           [true; false; true] [10; 30]%float).
  - by vm_compute.
  - by vm_compute.
Defined.
